(** * Detrended Price Oscillator ([jesse/indicators/dpo.py])

    A shallow embedding of the two functions of [dpo.py]: the engine [_dpo]
    and the public entry point [dpo].

    - Array elements are IEEE 754 binary64 numbers, as in the NumPy arrays
      parameter [source] and the buffers made by [np.zeros]: Rocq's
      primitive [float], whose operations are the processor's.
    - [period] is an integer, [Z], with [//] as floor division. [_dpo]
      is compiled by Numba ([@njit]), which holds [period] in an int64
      and wraps its arithmetic around: the slice bound
      [period - 1 + shift] of line 26 leaves the int64 range from
      [period = 6148914691236517206] on, and is modelled with the
      wrap-around. The other integer expressions ([period // 2 + 1],
      [period - 1], [-period]) stay in range for every int64 period but
      the least one, where wrapping does not change the outcome.
    - The engine allocates and writes NumPy arrays; arrays live in a store
      and the engine is a computation in a state-and-exception monad, so
      that what it writes, and where, is part of the model.
    - Exceptions are values: [ValueError] for a shape mismatch (NumPy's
      broadcasting failure), [IndexError] for an index out of range.
      The module defines and raises no exception of its own.
    - The three functions imported from [jesse.helpers] are parameters of
      the entry point. *)

From Stdlib Require Import ZArith Lia Floats Uint63.
From stdpp Require Import base list strings.

Local Open Scope Z_scope.

(** ** Exceptions and results *)

Inductive exn : Set :=
  | ValueError          (* operands / slices whose shapes cannot be broadcast *)
  | IndexError          (* index out of bounds *)
  | UnknownSourceType.  (* raised by the candle-source collaborator only *)

Inductive result (A : Type) : Type :=
  | Ok (a : A)
  | Raise (e : exn).
Arguments Ok {A} a.
Arguments Raise {A} e.

(** ** The fragment of NumPy used by [dpo.py], on one-dimensional
       float64 arrays *)

Module NumPy.

Abbreviation ndarray := (list float).

(** A slice bound [k] of a sequence of length [n], as Python clips it:
    a negative bound counts from the end, and both are clamped into
    [0..n]. *)
Definition slice_bound (n : nat) (k : Z) : nat :=
  Z.to_nat (if k <? 0 then Z.max 0 (k + Z.of_nat n) else Z.min k (Z.of_nat n)).

(** [a[k:]] *)
Definition slice_from (a : ndarray) (k : Z) : ndarray :=
  drop (slice_bound (length a) k) a.

(** [a[:k]] *)
Definition slice_to (a : ndarray) (k : Z) : ndarray :=
  take (slice_bound (length a) k) a.

(** [np.zeros(n)] *)
Definition zeros (n : nat) : ndarray := replicate n 0%float.

(** Elementwise binary operation with NumPy's broadcasting of shapes
    [(m,)] and [(n,)]: equal lengths, or one of them of length 1. *)
Definition broadcast2 (f : float -> float -> float) (x y : ndarray) : result ndarray :=
  if decide (length x = length y) then Ok (zip_with f x y)
  else match x, y with
       | [a], _ => Ok (map (f a) y)
       | _, [b] => Ok (map (fun a => f a b) x)
       | _, _ => Raise ValueError
       end.

(** The int64 scalar [period] as the float64 it is promoted to in
    [array / period] (exact conversion below 2^53, rounded to nearest up
    to 2^63). *)
Definition float_of_int (z : Z) : float :=
  if z <? 0 then (- of_uint63 (Uint63.of_Z (- z)))%float
  else of_uint63 (Uint63.of_Z z).

(** [a / k] for an integer scalar [k] *)
Definition div_scalar (a : ndarray) (k : Z) : ndarray :=
  map (fun x => (x / float_of_int k)%float) a.

(** [a[k:] = v]: the slice and [v] must have the same length, or [v] has
    length 1 and is broadcast. *)
Definition assign_from (a : ndarray) (k : Z) (v : ndarray) : result ndarray :=
  let s := slice_bound (length a) k in
  let m := (length a - s)%nat in
  if decide (length v = m) then Ok (take s a ++ v)
  else match v with
       | [x] => Ok (take s a ++ replicate m x)
       | _ => Raise ValueError
       end.

(** [a[:k] = x] for a scalar [x] *)
Definition fill_to (a : ndarray) (k : Z) (x : float) : ndarray :=
  let s := slice_bound (length a) k in
  replicate s x ++ drop s a.

(** [np.roll(a, shift)]: element [i] moves to [(i + shift) mod n]. *)
Definition roll (a : ndarray) (shift : Z) : ndarray :=
  match length a with
  | O => a
  | n => let s := Z.to_nat (shift mod Z.of_nat n) in
         drop (n - s) a ++ take (n - s) a
  end.

(** [a[i]] for an integer [i], negative indices counting from the end *)
Definition getitem (a : ndarray) (i : Z) : result float :=
  let j := if i <? 0 then i + Z.of_nat (length a) else i in
  if (0 <=? j) && (j <? Z.of_nat (length a)) then
    match a !! Z.to_nat j with
    | Some x => Ok x
    | None => Raise IndexError
    end
  else Raise IndexError.

End NumPy.
Import NumPy.

(** ** The store of arrays and the monad of array programs *)

Abbreviation loc := nat.
Abbreviation store := (list ndarray).

(** A computation takes the store and gives back a value or an exception,
    and the store as it has left it. *)
Definition M (A : Type) : Type := store -> result A * store.

Definition ret {A} (a : A) : M A := fun h => (Ok a, h).
Definition raise {A} (e : exn) : M A := fun h => (Raise e, h).
Definition bind {A B} (m : M A) (k : A -> M B) : M B :=
  fun h => match m h with
           | (Ok a, h') => k a h'
           | (Raise e, h') => (Raise e, h')
           end.

Notation "'do' x <- m ; k" := (bind m (fun x => k))
  (at level 10, x name, m at level 100, k at level 200).
Notation "m ;; k" := (bind m (fun _ => k))
  (at level 100, k at level 200, right associativity).

Definition lift {A} (r : result A) : M A := fun h => (r, h).

(** A new array object *)
Definition alloc (a : ndarray) : M loc := fun h => (Ok (length h), h ++ [a]).

(** The contents of an array object. A reference is never dangling in
    Python; the model answers [IndexError] for a location outside the
    store. *)
Definition load (l : loc) : M ndarray :=
  fun h => match h !! l with
           | Some a => (Ok a, h)
           | None => (Raise IndexError, h)
           end.

(** Overwrite the contents of an array object *)
Definition save (l : loc) (a : ndarray) : M unit := fun h => (Ok tt, <[l := a]> h).

(** [len(a)] *)
Definition len (l : loc) : M nat := do a <- load l; ret (length a).

(** [a[i] = x], [0 <= i < len(a)] *)
Definition setitem (l : loc) (i : nat) (x : float) : M unit :=
  do a <- load l;
  if decide (i < length a)%nat then save l (<[i := x]> a) else raise IndexError.

(** [for i in range(lo, lo + n): body(i)] *)
Fixpoint for_range (lo n : nat) (body : nat -> M unit) : M unit :=
  match n with
  | O => ret tt
  | S n' => body lo ;; for_range (S lo) n' body
  end.

(** ** [_dpo] (dpo.py, lines 8-28) *)

(** Line 18, the body of the loop: [cumsum[i] = cumsum[i-1] + temp[i]] *)
Definition cumsum_step (cumsum temp : loc) (i : nat) : M unit :=
  do c <- load cumsum;
  do t <- load temp;
  do x <- lift (getitem c (Z.of_nat i - 1));
  do y <- lift (getitem t (Z.of_nat i));
  setitem cumsum i (x + y)%float.

(** [shift = period // 2 + 1], and the integer [period - 1 + shift], the
    specification's cutoff *)
Definition shift_of (period : Z) : Z := period / 2 + 1.
Definition cutoff_of (period : Z) : Z := period - 1 + shift_of period.

(** An integer as the int64 that two's-complement arithmetic makes of it *)
Definition wrap_int64 (z : Z) : Z := (z + 2 ^ 63) mod 2 ^ 64 - 2 ^ 63.

(** The slice bound that line 26 computes, [period - 1 + shift] in int64
    arithmetic: the cutoff while that is below 2^63, a negative number
    from there on. *)
Definition mask_bound (period : Z) : Z := wrap_int64 (period - 1 + shift_of period).

Definition _dpo (source : loc) (period : Z) : M loc :=
  (* shift = period // 2 + 1 *)
  let shift := shift_of period in
  (* sma = np.zeros_like(source) *)
  do n <- len source;
  do sma <- alloc (zeros n);
  (* temp = np.zeros(len(source) + 1) *)
  do temp <- alloc (zeros (n + 1));
  (* temp[1:] = source *)
  do src <- load source;
  do t <- load temp;
  do t' <- lift (assign_from t 1 src);
  save temp t' ;;
  (* cumsum = np.zeros(len(source) + 1) *)
  do cumsum <- alloc (zeros (n + 1));
  (* for i in range(1, len(cumsum)): cumsum[i] = cumsum[i-1] + temp[i] *)
  do m <- len cumsum;
  for_range 1 (m - 1) (cumsum_step cumsum temp) ;;
  (* sma[period-1:] = (cumsum[period:] - cumsum[:-period]) / period *)
  do c <- load cumsum;
  do d <- lift (broadcast2 PrimFloat.sub (slice_from c period) (slice_to c (- period)));
  do s <- load sma;
  do s' <- lift (assign_from s (period - 1) (div_scalar d period));
  save sma s' ;;
  (* shifted_source = np.roll(source, shift) *)
  do src <- load source;
  do shifted_source <- alloc (roll src shift);
  (* dpo = shifted_source - sma *)
  do x <- load shifted_source;
  do y <- load sma;
  do r <- lift (broadcast2 PrimFloat.sub x y);
  do dpo <- alloc r;
  (* dpo[:period-1+shift] = np.nan *)
  do r <- load dpo;
  save dpo (fill_to r (wrap_int64 (period - 1 + shift)) nan) ;;
  (* return dpo *)
  ret dpo.

(** A call [_dpo(source, period)] in the store [h], with the contents of
    the returned array read back from the store the call leaves. *)
Definition call_dpo (h : store) (source : loc) (period : Z) : result ndarray :=
  match _dpo source period h with
  | (Ok l, h') => match h' !! l with Some a => Ok a | None => Raise IndexError end
  | (Raise e, _) => Raise e
  end.

(** The engine called on a series [src]: the store holds [src] alone. *)
Definition run_dpo (src : ndarray) (period : Z) : result ndarray :=
  call_dpo [src] 0%nat period.

(** ** [dpo] (dpo.py, lines 31-48) *)

(** What the public entry point returns: one number, or a whole series. *)
Inductive value : Type :=
  | Scalar (x : float)
  | Series (a : ndarray).

Section PublicEntryPoint.

(** [jesse.helpers] is not part of this module; its three functions are
    parameters of the entry point. [candles] is the two-dimensional
    candle array they work on. *)
Variable candles : Type.
Variable slice_candles : candles -> bool -> candles.
Variable get_candle_source : candles -> string -> result ndarray.
Variable same_length : candles -> ndarray -> ndarray.

Definition dpo (cs : candles) (period : Z) (source_type : string)
    (sequential : bool) : result value :=
  (* candles = slice_candles(candles, sequential) *)
  let cs := slice_candles cs sequential in
  (* source = get_candle_source(candles, source_type=source_type) *)
  match get_candle_source cs source_type with
  | Raise e => Raise e
  | Ok source =>
    (* res = _dpo(source, period) *)
    match run_dpo source period with
    | Raise e => Raise e
    | Ok res =>
      (* return same_length(candles, res) if sequential else res[-1] *)
      if sequential then Ok (Series (same_length cs res))
      else match getitem res (-1) with
           | Ok x => Ok (Scalar x)
           | Raise e => Raise e
           end
    end
  end.

End PublicEntryPoint.

(** * Derived descriptions of the engine *)

(** The running sum that the loop of lines 17-18 leaves in [cumsum]. *)
Fixpoint running_sum (acc : float) (a : ndarray) : ndarray :=
  match a with
  | [] => []
  | x :: a' => (acc + x)%float :: running_sum (acc + x)%float a'
  end.

Definition cumsum_of (src : ndarray) : ndarray := 0%float :: running_sum 0 src.

(** [cumsum[k]] as a left-to-right float64 sum of the first [k] prices *)
Definition prefix_sum (src : ndarray) (k : nat) : float :=
  fold_left PrimFloat.add (take k src) 0%float.

(** ** What a call of [_dpo] does to the store

    [dpo_outcome h src period] is the answer and the final store of
    [_dpo source period] started in a store [h] that holds [src] at
    [source]: the four buffers [sma], [temp], [cumsum], [shifted_source]
    and the result [dpo] are appended to [h], in the order of their
    allocation, as far as the call gets. *)
Definition dpo_outcome (h : store) (src : ndarray) (period : Z) : result loc * store :=
  let n := length src in
  let temp := 0%float :: src in
  let cumsum := cumsum_of src in
  match broadcast2 PrimFloat.sub (slice_from cumsum period) (slice_to cumsum (- period)) with
  | Raise e => (Raise e, h ++ [zeros n; temp; cumsum])
  | Ok d =>
    match assign_from (zeros n) (period - 1) (div_scalar d period) with
    | Raise e => (Raise e, h ++ [zeros n; temp; cumsum])
    | Ok sma =>
      let shifted_source := roll src (shift_of period) in
      match broadcast2 PrimFloat.sub shifted_source sma with
      | Raise e => (Raise e, h ++ [sma; temp; cumsum; shifted_source])
      | Ok r =>
        (Ok (length h + 4)%nat,
         h ++ [sma; temp; cumsum; shifted_source; fill_to r (mask_bound period) nan])
      end
    end
  end.

(** ** The engine for a period of at least 1 *)

(** The moving-average buffer after line 19, and the returned series. *)
Definition sma_of (src : ndarray) (period : Z) : ndarray :=
  let cumsum := cumsum_of src in
  take (slice_bound (length src) (period - 1)) (zeros (length src))
  ++ div_scalar (zip_with PrimFloat.sub (slice_from cumsum period)
                                        (slice_to cumsum (- period))) period.

Definition dpo_of (src : ndarray) (period : Z) : ndarray :=
  fill_to (zip_with PrimFloat.sub (roll src (shift_of period)) (sma_of src period))
          (mask_bound period) nan.

(** ** The specification's formula, in its own words *)

(** The defined-region formula as the specification words it: the prices
    [prices[i-P+1 .. i]], their arithmetic mean, and the value given to
    index [i], the price [P//2 + 1] positions back minus that mean. *)
Definition window (prices : ndarray) (period : Z) (i : nat) : ndarray :=
  take (Z.to_nat period) (drop (S i - Z.to_nat period) prices).

Definition mean (w : ndarray) : float :=
  (fold_left PrimFloat.add w 0 / float_of_int (Z.of_nat (length w)))%float.

Definition spec_value (prices : ndarray) (period : Z) (i : nat) : option float :=
  match prices !! (i - Z.to_nat (shift_of period))%nat with
  | Some x => Some (x - mean (window prices period i))%float
  | None => None
  end.

(** ** A one-column instance of the helpers

    A candle reduced to its price: slicing keeps everything, the source is
    the column itself, and [same_length] pads on the left with NaN. *)
Module OneColumn.
Definition slice_candles (cs : ndarray) (sequential : bool) : ndarray := cs.
Definition get_candle_source (cs : ndarray) (source_type : string) : result ndarray :=
  Ok cs.
Definition same_length (cs res : ndarray) : ndarray :=
  replicate (length cs - length res) nan ++ res.
Definition dpo := dpo ndarray slice_candles get_candle_source same_length.
End OneColumn.

Definition s10 : ndarray := [1; 2; 3; 4; 5; 6; 7; 8; 9; 10]%float.

(** ** Classes of float64 values *)

(** Every entry of [a] is finite: neither NaN nor an infinity. *)
Definition all_finite (a : ndarray) : bool := forallb is_finite a.

(** The same classes on the specification-level floats of [SpecFloat],
    through which the axioms of [FloatAxioms] describe the primitive
    operations. *)
Definition sf_is_nan (s : spec_float) : bool :=
  match s with S754_nan => true | _ => false end.

Definition sf_is_finite (s : spec_float) : bool :=
  match s with S754_zero _ | S754_finite _ _ _ => true | _ => false end.

(** [v] is the infinity of sign [s], or NaN. *)
Definition sf_inf_or_nan (s : bool) (v : spec_float) : Prop :=
  v = S754_infinity s \/ v = S754_nan.

(** * Properties *)

(** ** float64 arithmetic

    When a subtraction and a division by an integer cannot produce NaN.
    The primitive operations are specified by [SpecFloat]'s functions on
    [spec_float] (axioms [sub_spec], [div_spec], [of_uint63_spec]); the
    facts are proved there. *)

Lemma SFeqb_refl s : SFeqb s s = negb (sf_is_nan s).
Proof.
  destruct s as [[|]|[|]| |[|] m e]; try reflexivity;
    unfold SFeqb, SFcompare; rewrite Z.compare_refl, Pos.compare_cont_refl; reflexivity.
Qed.

Lemma is_nan_Prim2SF x : is_nan x = sf_is_nan (Prim2SF x).
Proof. unfold is_nan. rewrite FloatAxioms.eqb_spec, SFeqb_refl. apply Bool.negb_involutive. Qed.

Lemma Prim2SF_infinity : Prim2SF infinity = S754_infinity false.
Proof. vm_compute. reflexivity. Qed.

Lemma is_finite_Prim2SF x : is_finite x = sf_is_finite (Prim2SF x).
Proof.
  unfold is_finite, is_infinity.
  rewrite is_nan_Prim2SF, FloatAxioms.eqb_spec, abs_spec, Prim2SF_infinity.
  destruct (Prim2SF x) as [[|]|[|]| |[|] m e]; reflexivity.
Qed.

(** Right shifts keep a mantissa non-negative. *)
Lemma shr_1_nonneg mrs : 0 <= shr_m mrs -> 0 <= shr_m (shr_1 mrs).
Proof.
  destruct mrs as [m r s]. simpl.
  destruct m as [|[p|p|]|p]; simpl; lia.
Qed.

Lemma iter_pos_invariant {A} (P : A -> Prop) (f : A -> A) :
  (forall x, P x -> P (f x)) -> forall n x, P x -> P (SpecFloat.iter_pos f n x).
Proof.
  intros Hf. induction n as [n IH|n IH|]; intros x Hx; simpl; auto.
Qed.

Lemma shr_fexp_nonneg m e l :
  0 <= m -> 0 <= shr_m (fst (shr_fexp prec emax m e l)).
Proof.
  intros Hm. unfold shr_fexp, shr.
  assert (H0 : 0 <= shr_m (shr_record_of_loc m l)) by (destruct l as [|[| |]]; exact Hm).
  destruct (_ - e) as [|n|n]; simpl; auto.
  apply iter_pos_invariant; [exact shr_1_nonneg | exact H0].
Qed.

Lemma round_nearest_even_nonneg m l : 0 <= m -> 0 <= round_nearest_even m l.
Proof.
  intros Hm. unfold round_nearest_even.
  destruct l as [|[| |]]; try destruct (Z.even m); lia.
Qed.

Lemma binary_round_aux_not_nan s m e l :
  0 <= m -> sf_is_nan (binary_round_aux prec emax s m e l) = false.
Proof.
  intros Hm. unfold binary_round_aux.
  pose proof (shr_fexp_nonneg m e l Hm) as H1.
  destruct (shr_fexp prec emax m e l) as [mrs' e']. simpl in H1.
  pose proof (shr_fexp_nonneg _ e' loc_Exact
                (round_nearest_even_nonneg _ (loc_of_shr_record mrs') H1)) as H2.
  destruct (shr_fexp prec emax _ e' loc_Exact) as [mrs'' e'']. simpl in H2.
  destruct (shr_m mrs'') as [|p|p]; [reflexivity | | lia].
  destruct (e'' <=? _); reflexivity.
Qed.

Lemma binary_normalize_not_nan m e sz :
  sf_is_nan (binary_normalize prec emax m e sz) = false.
Proof.
  unfold binary_normalize, binary_round.
  destruct m as [|p|p]; [reflexivity| |];
    destruct (shl_align _ _ _) as [mz ez]; apply binary_round_aux_not_nan; lia.
Qed.

(** Subtraction of a number that is not NaN from a finite number *)
Lemma SFsub_not_nan x y :
  sf_is_finite x = true -> sf_is_nan y = false ->
  sf_is_nan (SF64sub x y) = false.
Proof.
  unfold SF64sub, SFsub.
  destruct x as [sx|sx| |sx mx ex]; try discriminate;
    destruct y as [sy|sy| |sy my ey]; try discriminate; intros _ _;
    try reflexivity.
  - destruct sx, sy; reflexivity.
  - apply binary_normalize_not_nan.
Qed.

Lemma SFdiv_not_nan x y :
  sf_is_nan x = false -> (exists s m e, y = S754_finite s m e) ->
  sf_is_nan (SF64div x y) = false.
Proof.
  intros Hx (sy & my & ey & ->). unfold SF64div, SFdiv.
  destruct x as [sx|sx| |sx mx ex]; try discriminate; try reflexivity.
  unfold SFdiv_core_binary.
  set (s := _ - _ - Z.min _ _).
  set (m' := match s with Z0 => _ | Zpos _ => _ | Zneg _ => _ end).
  assert (Hm' : 0 <= m').
  { unfold m'. destruct s; [lia | | lia]. apply Z.shiftl_nonneg. lia. }
  pose proof (Z.div_pos m' (Zpos my) Hm' ltac:(lia)) as Hq.
  unfold Z.div in Hq. destruct (Z.div_eucl m' (Z.pos my)) as [q r]. simpl in Hq.
  apply binary_round_aux_not_nan. exact Hq.
Qed.

Lemma sub_not_nan x y :
  is_finite x = true -> is_nan y = false -> is_nan (x - y) = false.
Proof.
  rewrite is_finite_Prim2SF, !is_nan_Prim2SF, FloatAxioms.sub_spec. apply SFsub_not_nan.
Qed.

Lemma finite_not_nan x : is_finite x = true -> is_nan x = false.
Proof.
  rewrite is_finite_Prim2SF, is_nan_Prim2SF. now destruct (Prim2SF x).
Qed.

(** ** Conversion of a positive 63-bit integer *)

Lemma digits2_pos_size p : digits2_pos p = Pos.size p.
Proof. induction p; simpl; congruence. Qed.

Lemma digits2_pos_shl p k :
  Zpos (digits2_pos (Pos.iter xO p k)) = Zpos (digits2_pos p) + Zpos k.
Proof.
  induction k as [|k IH] using Pos.peano_ind.
  - simpl. lia.
  - rewrite Pos.iter_succ. simpl. lia.
Qed.

(** Shifting a positive mantissa right by fewer places than it has
    digits leaves a positive mantissa with that many digits less. *)
Lemma shr_pos n : forall m r s,
  Zpos n < Zpos (digits2_pos m) ->
  exists m' r' s',
    SpecFloat.iter_pos shr_1 n (Build_shr_record (Zpos m) r s) = Build_shr_record (Zpos m') r' s'
    /\ Zpos (digits2_pos m') = Zpos (digits2_pos m) - Zpos n.
Proof.
  assert (H1 : forall m r s, 1 < Zpos (digits2_pos m) ->
    exists m' r' s',
      shr_1 (Build_shr_record (Zpos m) r s) = Build_shr_record (Zpos m') r' s'
      /\ Zpos (digits2_pos m') = Zpos (digits2_pos m) - 1).
  { intros [p|p|] r s Hd; cbn [shr_1 digits2_pos] in *; [| |lia];
      do 3 eexists; (split; [reflexivity | lia]). }
  induction n as [n IH|n IH|]; intros m r s Hd; cbn [SpecFloat.iter_pos].
  - destruct (H1 m r s ltac:(lia)) as (m1 & r1 & s1 & -> & Hd1).
    destruct (IH m1 r1 s1 ltac:(lia)) as (m2 & r2 & s2 & -> & Hd2).
    destruct (IH m2 r2 s2 ltac:(lia)) as (m3 & r3 & s3 & -> & Hd3).
    do 3 eexists; split; [reflexivity | lia].
  - destruct (IH m r s ltac:(lia)) as (m2 & r2 & s2 & -> & Hd2).
    destruct (IH m2 r2 s2 ltac:(lia)) as (m3 & r3 & s3 & -> & Hd3).
    do 3 eexists; split; [reflexivity | lia].
  - apply H1. lia.
Qed.

Lemma digits2_pos_succ p :
  Zpos (digits2_pos p) <= Zpos (digits2_pos (Pos.succ p)) <= Zpos (digits2_pos p) + 1.
Proof.
  induction p as [p IH|p IH|]; simpl; lia.
Qed.

Lemma digits2_pos_bound p k :
  0 <= k -> Zpos p < 2 ^ k -> Zpos (digits2_pos p) <= k.
Proof.
  intros Hk Hp. rewrite digits2_pos_size.
  pose proof (Pos.size_le p) as Hs.
  apply Pos2Z.pos_le_pos in Hs. rewrite Pos2Z.inj_pow in Hs.
  change (Z.pos (p~0)) with (2 * Z.pos p) in Hs.
  assert (Hlt : 2 ^ Z.pos (Pos.size p) < 2 ^ (k + 1))
    by (rewrite Z.pow_add_r, Z.pow_1_r by lia; lia).
  apply Z.pow_lt_mono_r_iff in Hlt; lia.
Qed.

(** [shr_fexp] on a positive mantissa [m] of [d] digits, when the
    exponent is not so low that the mantissa would be shifted out: the
    mantissa stays positive, and it loses [n = fexp (d + e) - e] digits
    when [n] is positive. *)
Lemma shr_fexp_pos m e l :
  emin - e < Zpos (digits2_pos m) ->
  exists m' r' s',
    shr_fexp prec emax (Zpos m) e l
    = (Build_shr_record (Zpos m') r' s',
       e + Z.max 0 (fexp prec emax (Zpos (digits2_pos m) + e) - e))
    /\ Zpos (digits2_pos m')
       = Zpos (digits2_pos m) - Z.max 0 (fexp prec emax (Zpos (digits2_pos m) + e) - e).
Proof.
  intros He. unfold shr_fexp, shr. cbn [Zdigits2].
  set (n := fexp prec emax (Zpos (digits2_pos m) + e) - e).
  assert (Hn : n < Zpos (digits2_pos m)).
  { unfold n, fexp, SpecFloat.emin, prec, emax in *. lia. }
  assert (Hrec : exists r s, shr_record_of_loc (Zpos m) l = Build_shr_record (Zpos m) r s)
    by (destruct l as [|[| |]]; do 2 eexists; reflexivity).
  destruct Hrec as (r & s & ->).
  destruct n as [|k|k] eqn:En.
  - exists m, r, s. split; [f_equal; lia | lia].
  - destruct (shr_pos k m r s Hn) as (m' & r' & s' & -> & Hd).
    exists m', r', s'. split; [f_equal; lia | lia].
  - exists m, r, s. split; [f_equal; lia | lia].
Qed.

Lemma binary_normalize_pos p :
  Zpos p < 2 ^ 63 ->
  exists m e, binary_normalize prec emax (Zpos p) 0 false = S754_finite false m e.
Proof.
  intros Hp. pose proof (digits2_pos_bound p 63 ltac:(lia) Hp) as Hd.
  unfold binary_normalize, binary_round.
  (* alignment *)
  assert (Hal : exists mz ez,
    shl_align p 0 (fexp prec emax (Zpos (digits2_pos p) + 0)) = (mz, ez)
    /\ Zpos (digits2_pos mz) + ez = Zpos (digits2_pos p)
    /\ -52 <= ez <= 0 /\ 53 <= Zpos (digits2_pos mz)).
  { unfold shl_align.
    destruct (fexp prec emax (Zpos (digits2_pos p) + 0) - 0) as [|k|k] eqn:E.
    - exists p, 0. split; [reflexivity|].
      unfold fexp, SpecFloat.emin, prec, emax in *. lia.
    - exists p, 0. split; [reflexivity|].
      unfold fexp, SpecFloat.emin, prec, emax in *. lia.
    - eexists _, _. split; [reflexivity|]. rewrite digits2_pos_shl.
      unfold fexp, SpecFloat.emin, prec, emax in *. lia. }
  destruct Hal as (mz & ez & -> & Hdig & Hez & Hmz).
  unfold binary_round_aux.
  destruct (shr_fexp_pos mz ez loc_Exact) as (m1 & r1 & s1 & -> & Hd1).
  { unfold SpecFloat.emin, prec, emax. lia. }
  set (e1 := ez + Z.max 0 (fexp prec emax (Zpos (digits2_pos mz) + ez) - ez)) in *.
  assert (He1 : e1 = Zpos (digits2_pos p) - 53 /\ Zpos (digits2_pos m1) = 53).
  { unfold e1, fexp, SpecFloat.emin, prec, emax in *. lia. }
  destruct He1 as [He1 Hm1]. cbn [shr_m].
  assert (Hr : exists m2, round_nearest_even (Zpos m1)
                 (loc_of_shr_record (Build_shr_record (Zpos m1) r1 s1)) = Zpos m2
               /\ 53 <= Zpos (digits2_pos m2) <= 54).
  { pose proof (digits2_pos_succ m1) as Hs.
    assert (Hsucc : Zpos m1 + 1 = Zpos (Pos.succ m1)) by lia.
    unfold round_nearest_even.
    destruct (loc_of_shr_record _) as [|[| |]]; try destruct (Z.even _);
      try rewrite Hsucc; eexists; (split; [reflexivity | lia]). }
  destruct Hr as (m2 & -> & Hm2).
  destruct (shr_fexp_pos m2 e1 loc_Exact) as (m3 & r3 & s3 & -> & Hd3).
  { unfold SpecFloat.emin, prec, emax. lia. }
  cbn [shr_m].
  destruct (Z.leb_spec (e1 + Z.max 0 (fexp prec emax (Zpos (digits2_pos m2) + e1) - e1))
                       (emax - prec)) as [_|Hbad].
  - eexists _, _. reflexivity.
  - exfalso. unfold fexp, SpecFloat.emin, prec, emax in *. lia.
Qed.

Lemma float_of_int_finite z :
  1 <= z < 2 ^ 63 ->
  exists m e, Prim2SF (of_uint63 (of_Z z)) = S754_finite false m e.
Proof.
  intros Hz. rewrite of_uint63_spec, of_Z_spec.
  rewrite Z.mod_small by (change wB with (2 ^ 63); lia).
  destruct z as [|p|p]; [lia | | lia]. apply binary_normalize_pos. lia.
Qed.

Lemma div_not_nan x z :
  is_nan x = false -> 1 <= z < 2 ^ 63 ->
  is_nan (x / of_uint63 (of_Z z)) = false.
Proof.
  intros Hx Hz. rewrite is_nan_Prim2SF in *. rewrite FloatAxioms.div_spec.
  apply SFdiv_not_nan; [exact Hx|].
  destruct (float_of_int_finite z Hz) as (m & e & ->). eauto.
Qed.

(** ** Running the monad *)

Section Steps.
Context {A B : Type}.

Lemma bind_ret (a : A) (k : A -> M B) h : bind (ret a) k h = k a h.
Proof. reflexivity. Qed.

Lemma bind_lift_ok (a : A) (k : A -> M B) h : bind (lift (Ok a)) k h = k a h.
Proof. reflexivity. Qed.

Lemma bind_lift_raise e (k : A -> M B) h :
  bind (lift (Raise e)) k h = (Raise e, h).
Proof. reflexivity. Qed.

Lemma bind_assoc {C} (m : M A) (f : A -> M B) (g : B -> M C) h :
  bind (bind m f) g h = bind m (fun a => bind (f a) g) h.
Proof. unfold bind. destruct (m h) as [[a|e] h']; reflexivity. Qed.
End Steps.

Lemma bind_alloc {B} a (k : loc -> M B) h :
  bind (alloc a) k h = k (length h) (h ++ [a]).
Proof. reflexivity. Qed.

Lemma bind_load {B} l a (k : ndarray -> M B) (h : store) :
  h !! l = Some a -> bind (load l) k h = k a h.
Proof. intros E. unfold bind, load. now rewrite E. Qed.

Lemma bind_save {B} l a (k : unit -> M B) h :
  bind (save l a) k h = k tt (<[l := a]> h).
Proof. reflexivity. Qed.

Lemma bind_len {B} l a (k : nat -> M B) (h : store) :
  h !! l = Some a -> bind (len l) k h = k (length a) h.
Proof. intros E. unfold len. rewrite bind_assoc, (bind_load _ _ _ _ E). reflexivity. Qed.

Lemma bind_setitem {B} l a i x (k : unit -> M B) (h : store) :
  h !! l = Some a -> (i < length a)%nat ->
  bind (setitem l i x) k h = k tt (<[l := <[i := x]> a]> h).
Proof.
  intros E Hi. unfold setitem. rewrite bind_assoc, (bind_load _ _ _ _ E).
  destruct (decide (i < length a)%nat); [reflexivity | lia].
Qed.

(** ** Reading the NumPy operations *)

Lemma getitem_lookup (a : ndarray) (i : nat) x :
  a !! i = Some x -> getitem a (Z.of_nat i) = Ok x.
Proof.
  intros E. pose proof (lookup_lt_Some _ _ _ E) as Hi. unfold getitem.
  destruct (Z.ltb_spec (Z.of_nat i) 0); [lia|].
  destruct (Z.leb_spec 0 (Z.of_nat i)); [|lia].
  destruct (Z.ltb_spec (Z.of_nat i) (Z.of_nat (length a))); [|lia].
  simpl. now rewrite Nat2Z.id, E.
Qed.

Lemma getitem_last_empty : getitem [] (-1) = Raise IndexError.
Proof. reflexivity. Qed.

Lemma length_zeros n : length (zeros n) = n.
Proof. apply length_replicate. Qed.

Lemma slice_bound_le n k : (slice_bound n k <= n)%nat.
Proof. unfold slice_bound. destruct (Z.ltb_spec k 0); lia. Qed.

Lemma slice_bound_nonneg n k :
  0 <= k -> slice_bound n k = Nat.min (Z.to_nat k) n.
Proof. intros Hk. unfold slice_bound. destruct (Z.ltb_spec k 0); lia. Qed.

Lemma slice_bound_neg n k :
  k < 0 -> slice_bound n k = (n - Z.to_nat (- k))%nat.
Proof. intros Hk. unfold slice_bound. destruct (Z.ltb_spec k 0); lia. Qed.

Lemma length_running_sum a : forall acc, length (running_sum acc a) = length a.
Proof. induction a as [|x a IH]; intros acc; simpl; [reflexivity | now rewrite IH]. Qed.

Lemma length_cumsum_of src : length (cumsum_of src) = S (length src).
Proof. unfold cumsum_of. simpl. now rewrite length_running_sum. Qed.

Lemma running_sum_lookup a : forall acc k, (k < length a)%nat ->
  running_sum acc a !! k = Some (fold_left PrimFloat.add (take (S k) a) acc).
Proof.
  induction a as [|x a IH]; intros acc k Hk; simpl in *; [lia|].
  destruct k as [|k]; [now destruct a|].
  simpl. rewrite IH by lia. reflexivity.
Qed.

Lemma cumsum_of_lookup src k : (k <= length src)%nat ->
  cumsum_of src !! k = Some (prefix_sum src k).
Proof.
  intros Hk. unfold cumsum_of, prefix_sum. destruct k as [|k]; [reflexivity|].
  simpl. now rewrite running_sum_lookup by lia.
Qed.

(** ** The loop of lines 17-18 *)

(** Invariant of the loop: when [cumsum] holds the sums computed so far,
    the last of them [acc], followed by zeros, and [rest] is what remains
    of [temp], the loop replaces the zeros by the running sums of [rest]
    started at [acc], and touches nothing else in the store. *)
Lemma cumsum_loop rest : forall (h : store) lc lt pre acc t,
  lc <> lt ->
  h !! lt = Some t ->
  h !! lc = Some ((pre ++ [acc]) ++ zeros (length rest)) ->
  drop (S (length pre)) t = rest ->
  for_range (S (length pre)) (length rest) (cumsum_step lc lt) h
  = (Ok tt, <[lc := (pre ++ [acc]) ++ running_sum acc rest]> h).
Proof.
  induction rest as [|y rest IH]; intros h lc lt pre acc t Hne Ht Hc Hd.
  - simpl in *. unfold ret. now rewrite list_insert_id.
  - assert (Hlc : (lc < length h)%nat) by (eapply lookup_lt_Some; eassumption).
    assert (Hy : t !! S (length pre) = Some y).
    { rewrite <- (Nat.add_0_r (S (length pre))), <- lookup_drop, Hd. reflexivity. }
    assert (Hacc : ((pre ++ [acc]) ++ zeros (length (y :: rest))) !! length pre = Some acc).
    { rewrite lookup_app_l by (rewrite length_app; simpl; lia).
      now rewrite list_lookup_middle. }
    cbn [for_range length]. unfold cumsum_step at 1.
    rewrite !bind_assoc, (bind_load _ _ _ _ Hc).
    rewrite !bind_assoc, (bind_load _ _ _ _ Ht).
    replace (Z.of_nat (S (length pre)) - 1) with (Z.of_nat (length pre)) by lia.
    rewrite (getitem_lookup _ _ _ Hacc), !bind_assoc, bind_lift_ok.
    rewrite (getitem_lookup _ _ _ Hy), !bind_assoc, bind_lift_ok.
    rewrite (bind_setitem _ _ _ _ _ _ Hc)
      by (rewrite !length_app, length_zeros; simpl; lia).
    assert (Hins : <[S (length pre) := (acc + y)%float]>
                     ((pre ++ [acc]) ++ zeros (length (y :: rest)))
                   = ((pre ++ [acc]) ++ [(acc + y)%float]) ++ zeros (length rest)).
    { rewrite insert_app_r_alt by (rewrite length_app; simpl; lia).
      rewrite length_app. simpl.
      replace (S (length pre) - (length pre + 1))%nat with 0%nat by lia.
      simpl. now rewrite <- (app_assoc (pre ++ [acc])). }
    rewrite Hins.
    replace (S (S (length pre))) with (S (length (pre ++ [acc])))
      by (rewrite length_app; simpl; lia).
    erewrite IH; cycle 1.
    + exact Hne.
    + rewrite list_lookup_insert_ne by exact Hne. exact Ht.
    + rewrite list_lookup_insert_eq by exact Hlc. reflexivity.
    + rewrite length_app. simpl.
      replace (S (length pre + 1)) with (S (length pre) + 1)%nat by lia.
      now rewrite <- drop_drop, Hd.
    + rewrite list_insert_insert_eq. f_equal. f_equal.
      simpl. now rewrite <- app_assoc.
Qed.

Lemma store_lookup_new (h news : store) k :
  (h ++ news) !! (length h + k)%nat = news !! k.
Proof. rewrite lookup_app_r by lia. f_equal. lia. Qed.

Lemma store_insert_new (h news : store) k a :
  <[(length h + k)%nat := a]> (h ++ news) = h ++ <[k := a]> news.
Proof. rewrite insert_app_r_alt by lia. do 2 f_equal. lia. Qed.

Lemma store_lookup_old (h news : store) l a :
  h !! l = Some a -> (h ++ news) !! l = Some a.
Proof. apply lookup_app_l_Some. Qed.

Lemma assign_temp (src : ndarray) :
  assign_from (zeros (length src + 1)) 1 src = Ok (0%float :: src).
Proof.
  unfold assign_from. rewrite length_zeros, slice_bound_nonneg by lia.
  replace (Nat.min (Z.to_nat 1) (length src + 1)) with 1%nat by lia.
  destruct (decide (length src = (length src + 1 - 1)%nat)) as [_|Hn]; [|lia].
  rewrite Nat.add_1_r. reflexivity.
Qed.

Lemma store_lookup_new0 (h news : store) :
  (h ++ news) !! length h = news !! 0%nat.
Proof. rewrite <- (store_lookup_new h news 0). f_equal. lia. Qed.

Lemma store_insert_new0 (h news : store) a :
  <[length h := a]> (h ++ news) = h ++ <[0%nat := a]> news.
Proof. rewrite <- (store_insert_new h news 0). f_equal. lia. Qed.

Lemma _dpo_run (h : store) source src period :
  h !! source = Some src ->
  _dpo source period h = dpo_outcome h src period.
Proof.
  intros Hs. unfold _dpo, dpo_outcome. set (n := length src).
  rewrite (bind_len _ _ _ _ Hs). fold n.
  (* sma, temp *)
  rewrite bind_alloc, bind_alloc, <- app_assoc. cbn [app].
  rewrite (bind_load _ _ _ _ (store_lookup_old _ _ _ _ Hs)).
  rewrite length_app. cbn [length].
  rewrite (bind_load (length h + 1) (zeros (n + 1)))
    by (now rewrite store_lookup_new).
  unfold n at 1. rewrite assign_temp, bind_lift_ok, bind_save, store_insert_new.
  cbn [list_insert insert].
  (* cumsum and its loop *)
  rewrite bind_alloc, <- app_assoc, length_app. cbn [app length].
  rewrite (bind_len (length h + 2) (zeros (n + 1)))
    by (now rewrite store_lookup_new).
  rewrite length_zeros. replace (n + 1 - 1)%nat with (length src) by (unfold n; lia).
  unfold bind at 1.
  assert (Hloop := cumsum_loop src (h ++ [zeros n; 0%float :: src; zeros (n + 1)])
             (length h + 2)%nat (length h + 1)%nat [] 0%float (0%float :: src)).
  cbn [length app] in Hloop. rewrite Hloop; clear Hloop; cycle 1.
  { lia. }
  { now rewrite store_lookup_new. }
  { rewrite store_lookup_new. cbn [lookup list_lookup]. unfold n.
    now rewrite Nat.add_1_r. }
  { reflexivity. }
  rewrite store_insert_new. cbn [list_insert insert app]. fold (cumsum_of src).
  rewrite (bind_load (length h + 2) (cumsum_of src)) by (now rewrite store_lookup_new).
  (* sma[period-1:] = ... *)
  destruct (broadcast2 PrimFloat.sub _ _) as [d|e];
    [rewrite bind_lift_ok | now rewrite bind_lift_raise].
  rewrite (bind_load (length h) (zeros n)) by (now rewrite store_lookup_new0).
  destruct (assign_from _ _ _) as [sma|e];
    [rewrite bind_lift_ok | now rewrite bind_lift_raise].
  rewrite bind_save, store_insert_new0. cbn [list_insert insert].
  (* shifted_source, dpo *)
  rewrite (bind_load _ _ _ _ (store_lookup_old _ _ _ _ Hs)).
  rewrite bind_alloc, <- app_assoc, length_app. cbn [app length].
  rewrite (bind_load (length h + 3) (roll src (shift_of period)))
    by (now rewrite store_lookup_new).
  rewrite (bind_load (length h) sma) by (now rewrite store_lookup_new0).
  destruct (broadcast2 PrimFloat.sub _ _) as [r|e];
    [rewrite bind_lift_ok | now rewrite bind_lift_raise].
  rewrite bind_alloc, <- app_assoc, length_app. cbn [app length].
  rewrite (bind_load (length h + 4) r) by (now rewrite store_lookup_new).
  rewrite bind_save, store_insert_new. reflexivity.
Qed.

(** ** [np.roll] *)

Lemma length_roll (a : ndarray) s : length (roll a s) = length a.
Proof.
  unfold roll. destruct (length a) as [|n] eqn:E; [exact E|].
  rewrite length_app, length_drop, length_take, E. lia.
Qed.

(** Entry [i] of the rolled array is entry [(i - shift) mod n] of the
    array. *)
Lemma roll_lookup (a : ndarray) (s : Z) (i : nat) :
  (i < length a)%nat ->
  roll a s !! i = a !! Z.to_nat ((Z.of_nat i - s) mod Z.of_nat (length a)).
Proof.
  intros Hi. unfold roll. destruct (length a) as [|n] eqn:E; [lia|].
  set (N := Z.of_nat (S n)). assert (HN : 0 < N) by (unfold N; lia).
  pose proof (Z.mod_pos_bound s N HN) as Hb.
  set (r := s mod N) in *.
  assert (Hm : (Z.of_nat i - s) mod N = (Z.of_nat i - r) mod N)
    by (unfold r; now rewrite Zminus_mod_idemp_r).
  rewrite Hm. destruct (decide (Z.of_nat i < r)) as [Hlt|Hge].
  - rewrite lookup_app_l by (rewrite length_drop, E; unfold N in *; lia).
    rewrite lookup_drop. f_equal.
    rewrite <- (Z.mod_unique_pos (Z.of_nat i - r) N (-1) (Z.of_nat i - r + N))
      by (unfold N in *; lia).
    unfold N in *; lia.
  - rewrite lookup_app_r by (rewrite length_drop, E; unfold N in *; lia).
    rewrite length_drop, E, lookup_take_lt by (unfold N in *; lia).
    f_equal. rewrite Z.mod_small by (unfold N in *; lia). unfold N in *; lia.
Qed.

Lemma length_window (src : ndarray) period :
  1 <= period ->
  length (slice_from (cumsum_of src) period) = (S (length src) - Z.to_nat period)%nat
  /\ length (slice_to (cumsum_of src) (- period)) = (S (length src) - Z.to_nat period)%nat.
Proof.
  intros Hp. unfold slice_from, slice_to.
  rewrite length_drop, length_take, length_cumsum_of.
  rewrite slice_bound_nonneg, slice_bound_neg by lia.
  rewrite Z.opp_involutive. lia.
Qed.

Lemma length_sma_of (src : ndarray) period :
  1 <= period -> length (sma_of src period) = length src.
Proof.
  intros Hp. destruct (length_window src period Hp) as [H1 H2]. unfold sma_of, div_scalar.
  rewrite length_app, length_take, length_map, length_zip_with, H1, H2, length_zeros.
  rewrite slice_bound_nonneg by lia. lia.
Qed.

Lemma dpo_outcome_pos (h : store) (src : ndarray) period :
  1 <= period ->
  dpo_outcome h src period
  = (Ok (length h + 4)%nat,
     h ++ [sma_of src period; 0%float :: src; cumsum_of src;
           roll src (shift_of period); dpo_of src period]).
Proof.
  intros Hp. destruct (length_window src period Hp) as [H1 H2].
  unfold dpo_outcome, broadcast2 at 1.
  destruct (decide _) as [_|Hne]; [|congruence].
  unfold assign_from. rewrite length_zeros.
  destruct (decide _) as [_|Hne]; cycle 1.
  { exfalso. apply Hne. unfold div_scalar.
    rewrite length_map, length_zip_with, H1, H2, slice_bound_nonneg by lia. lia. }
  fold (sma_of src period). unfold broadcast2.
  destruct (decide _) as [_|Hne]; [reflexivity|].
  exfalso. apply Hne. now rewrite length_roll, length_sma_of.
Qed.

Lemma call_dpo_outcome (h : store) source src period :
  h !! source = Some src ->
  call_dpo h source period
  = match dpo_outcome [] src period with
    | (Ok l, news) => match news !! l with Some a => Ok a | None => Raise IndexError end
    | (Raise e, _) => Raise e
    end.
Proof.
  intros Hs. unfold call_dpo. rewrite (_dpo_run h source src period Hs).
  unfold dpo_outcome.
  repeat match goal with |- context [match ?r with Ok _ => _ | Raise _ => _ end] =>
    destruct r; try reflexivity end.
  cbn [length]. rewrite store_lookup_new. reflexivity.
Qed.

Lemma call_dpo_pos (h : store) source src period :
  h !! source = Some src -> 1 <= period ->
  call_dpo h source period = Ok (dpo_of src period).
Proof.
  intros Hs Hp. rewrite (call_dpo_outcome h source src period Hs).
  rewrite dpo_outcome_pos by exact Hp. reflexivity.
Qed.

Lemma run_dpo_pos (src : ndarray) period :
  1 <= period -> run_dpo src period = Ok (dpo_of src period).
Proof.
  intros Hp. apply (call_dpo_pos [src] 0%nat src period eq_refl Hp).
Qed.

Lemma shift_cutoff_bounds period :
  1 <= period ->
  1 <= shift_of period <= period /\ period <= cutoff_of period
  /\ shift_of period <= cutoff_of period.
Proof.
  intros Hp. unfold cutoff_of, shift_of.
  assert (0 <= period / 2) by (apply Z.div_pos; lia).
  assert (period / 2 < period) by (apply Z.div_lt; lia).
  lia.
Qed.

(** While the cutoff is below 2^63, line 26 computes it. *)
Lemma mask_bound_cutoff period :
  1 <= period -> cutoff_of period < 2 ^ 63 -> mask_bound period = cutoff_of period.
Proof.
  intros Hp Hc. destruct (shift_cutoff_bounds period Hp) as (_ & Hpc & _).
  unfold mask_bound, wrap_int64. fold (cutoff_of period).
  rewrite Z.mod_small by lia. lia.
Qed.

Lemma length_dpo_of (src : ndarray) period :
  1 <= period -> length (dpo_of src period) = length src.
Proof.
  intros Hp. unfold dpo_of, fill_to.
  rewrite length_app, length_replicate, length_drop, length_zip_with.
  rewrite length_roll, length_sma_of by exact Hp.
  pose proof (slice_bound_le (length src `min` length src) (mask_bound period)). lia.
Qed.

(** An output entry is NaN, or the difference of line 23. *)
Lemma dpo_of_lookup (src : ndarray) period (i : nat) :
  1 <= period -> (i < length src)%nat ->
  dpo_of src period !! i = Some nan
  \/ dpo_of src period !! i
     = zip_with PrimFloat.sub (roll src (shift_of period)) (sma_of src period) !! i.
Proof.
  intros Hp Hi. unfold dpo_of, fill_to.
  rewrite length_zip_with, length_roll, length_sma_of by exact Hp.
  set (m := slice_bound _ _).
  assert (Hm : (m <= length src)%nat)
    by (pose proof (slice_bound_le (length src `min` length src) (mask_bound period));
        unfold m; lia).
  destruct (decide (i < m)%nat) as [Hlt|Hge].
  - left. rewrite lookup_app_l by (rewrite length_replicate; lia).
    apply lookup_replicate_2. lia.
  - right. rewrite lookup_app_r by (rewrite length_replicate; lia).
    rewrite length_replicate, lookup_drop. f_equal. lia.
Qed.

(** While the cutoff is below 2^63, line 26 overwrites the entries below
    it. *)
Lemma dpo_of_masked (src : ndarray) period (i : nat) :
  1 <= period -> cutoff_of period < 2 ^ 63 ->
  (i < length src)%nat -> Z.of_nat i < cutoff_of period ->
  dpo_of src period !! i = Some nan.
Proof.
  intros Hp H63 Hi Hc. unfold dpo_of, fill_to.
  rewrite length_zip_with, length_roll, length_sma_of by exact Hp.
  rewrite mask_bound_cutoff by assumption.
  rewrite slice_bound_nonneg by lia.
  rewrite lookup_app_l by (rewrite length_replicate; lia).
  apply lookup_replicate_2. lia.
Qed.

Lemma sma_of_lookup (src : ndarray) period (i : nat) :
  1 <= period -> period - 1 <= Z.of_nat i -> (i < length src)%nat ->
  sma_of src period !! i
  = Some ((prefix_sum src (S i) - prefix_sum src (S i - Z.to_nat period))
          / float_of_int period)%float.
Proof.
  intros Hp Hlo Hi. unfold sma_of, div_scalar, slice_from, slice_to.
  rewrite length_cumsum_of, slice_bound_nonneg, slice_bound_nonneg, slice_bound_neg by lia.
  rewrite Z.opp_involutive.
  rewrite lookup_app_r by (rewrite length_take, length_zeros; lia).
  rewrite length_take, length_zeros, list_lookup_fmap, lookup_zip_with.
  rewrite lookup_drop, lookup_take_lt by lia.
  replace (Z.to_nat period `min` S (length src)
           + (i - (Z.to_nat (period - 1) `min` length src) `min` length src))%nat
    with (S i) by lia.
  replace (i - (Z.to_nat (period - 1) `min` length src) `min` length src)%nat
    with (S i - Z.to_nat period)%nat by lia.
  rewrite !cumsum_of_lookup by lia. reflexivity.
Qed.

(** The difference of line 23 at an index where the moving average is
    set and the rolled price is not a wrapped one. *)
Lemma unmasked_value (src : ndarray) period (i : nat) :
  1 <= period -> period - 1 <= Z.of_nat i -> shift_of period <= Z.of_nat i ->
  (i < length src)%nat ->
  exists x,
    src !! (i - Z.to_nat (shift_of period))%nat = Some x
    /\ zip_with PrimFloat.sub (roll src (shift_of period)) (sma_of src period) !! i
       = Some (x - (prefix_sum src (S i) - prefix_sum src (S i - Z.to_nat period))
                   / float_of_int period)%float.
Proof.
  intros Hp Hlo Hs Hi. destruct (shift_cutoff_bounds period Hp) as ([Hs1 Hs2] & Hpc & Hsc).
  destruct (lookup_lt_is_Some_2 src (i - Z.to_nat (shift_of period))%nat) as [x Hx]; [lia|].
  exists x. split; [exact Hx|].
  rewrite lookup_zip_with, roll_lookup by exact Hi.
  rewrite Z.mod_small by lia.
  replace (Z.to_nat (Z.of_nat i - shift_of period))
    with (i - Z.to_nat (shift_of period))%nat by lia.
  rewrite Hx, sma_of_lookup by lia. reflexivity.
Qed.

(** Past the masked prefix an entry is the difference of line 23. *)
Lemma dpo_of_defined (src : ndarray) period (i : nat) :
  1 <= period -> cutoff_of period < 2 ^ 63 ->
  cutoff_of period <= Z.of_nat i -> (i < length src)%nat ->
  exists x,
    src !! (i - Z.to_nat (shift_of period))%nat = Some x
    /\ dpo_of src period !! i
       = Some (x - (prefix_sum src (S i) - prefix_sum src (S i - Z.to_nat period))
                   / float_of_int period)%float.
Proof.
  intros Hp H63 Hc Hi. destruct (shift_cutoff_bounds period Hp) as ([Hs1 Hs2] & Hpc & Hsc).
  destruct (unmasked_value src period i Hp ltac:(lia) ltac:(lia) Hi) as (x & Hx & Hv).
  exists x. split; [exact Hx|]. rewrite <- Hv. unfold dpo_of, fill_to.
  rewrite length_zip_with, length_roll, length_sma_of by exact Hp.
  rewrite mask_bound_cutoff by assumption.
  rewrite slice_bound_nonneg by lia.
  rewrite lookup_app_r by (rewrite length_replicate; lia).
  rewrite length_replicate, lookup_drop. f_equal. lia.
Qed.

(** * The claims *)

Lemma length_window_prices (prices : ndarray) (period : Z) (i : nat) :
  1 <= period -> period - 1 <= Z.of_nat i -> (i < length prices)%nat ->
  Z.of_nat (length (window prices period i)) = period.
Proof.
  intros Hp Hlo Hi. unfold window. rewrite length_take, length_drop. lia.
Qed.

(** C1, as amended. For a period [P >= 1] and an index [i] with
    [P - 1 + (P//2 + 1) <= i < N], the output at [i] is
    [prices[i - (P//2 + 1)] - (S(i+1) - S(i+1-P)) / P] in float64
    arithmetic, where [S(k)] is the running float64 sum of the first [k]
    prices, accumulated from 0 in index order. It is the value of the
    specification's formula whenever [S(i+1) - S(i+1-P)] is the float64
    sum of the window [prices[i-P+1 .. i]]. The series has, as every
    array, fewer than 2^63 entries. *)
Theorem defined_region_value (prices : ndarray) (period : Z) (i : nat) :
  1 <= period ->
  cutoff_of period <= Z.of_nat i < Z.of_nat (length prices) ->
  Z.of_nat (length prices) < 2 ^ 63 ->
  exists out x,
    run_dpo prices period = Ok out
    /\ prices !! (i - Z.to_nat (shift_of period))%nat = Some x
    /\ out !! i
       = Some (x - (prefix_sum prices (S i) - prefix_sum prices (S i - Z.to_nat period))
                   / float_of_int period)%float
    /\ ((prefix_sum prices (S i) - prefix_sum prices (S i - Z.to_nat period))%float
        = fold_left PrimFloat.add (window prices period i) 0%float ->
        out !! i = spec_value prices period i).
Proof.
  intros Hp [Hlo Hhi] Hlen.
  destruct (shift_cutoff_bounds period Hp) as (_ & Hpc & _).
  destruct (dpo_of_defined prices period i Hp ltac:(lia) Hlo ltac:(lia))
    as (x & Hx & Hout).
  exists (dpo_of prices period), x. rewrite run_dpo_pos by exact Hp.
  split; [reflexivity|]. split; [exact Hx|]. split; [exact Hout|].
  intros Hexact. unfold spec_value, mean.
  rewrite Hx, Hout, Hexact, length_window_prices by lia. reflexivity.
Qed.

Lemma defined_region_value_witness :
  exists out x,
    run_dpo s10 5 = Ok out
    /\ s10 !! (8 - Z.to_nat (shift_of 5))%nat = Some x
    /\ out !! 8%nat
       = Some (x - (prefix_sum s10 9 - prefix_sum s10 (9 - Z.to_nat 5))
                   / float_of_int 5)%float
    /\ ((prefix_sum s10 9 - prefix_sum s10 (9 - Z.to_nat 5))%float
        = fold_left PrimFloat.add (window s10 5 8) 0%float ->
        out !! 8%nat = spec_value s10 5 8).
Proof.
  apply (defined_region_value s10 5 8);
    [lia | vm_compute; split; congruence | vm_compute; reflexivity].
Defined.

(** On the series 1, ..., 10 the condition holds: the sums are exact. *)
Lemma scenario_window_sum_exact :
  (prefix_sum s10 9 - prefix_sum s10 4)%float
  = fold_left PrimFloat.add (window s10 5 8) 0%float.
Proof. vm_compute. reflexivity. Qed.

(** C1 as stated fails: with prices [2^53, 1, 1] and period 1, index 2 is
    past the cutoff 1; the price one position back is 1 and the mean of
    the one-price window [prices[2..2]] is 1, so the formula gives 0; the
    engine returns 1, because both [cumsum[2]] and [cumsum[3]] are
    [2^53 + 1] rounded to [2^53]. *)
Lemma defined_region_formula_counterexample :
  let prices := [0x1p53; 1; 1]%float in
  cutoff_of 1 <= 2 < Z.of_nat (length prices)
  /\ exists out,
       run_dpo prices 1 = Ok out
       /\ out !! 2%nat = Some 1%float
       /\ spec_value prices 1 2 = Some 0%float
       /\ out !! 2%nat <> spec_value prices 1 2.
Proof.
  cbv zeta. split; [vm_compute; split; congruence|].
  exists [nan; 0x1p53; 1]%float.
  split; [vm_compute; reflexivity|]. split; [reflexivity|].
  split; [vm_compute; reflexivity|].
  intros H.
  apply (f_equal (fun o => match o with
                           | Some x => PrimFloat.is_zero x
                           | None => false
                           end)) in H.
  vm_compute in H. discriminate H.
Qed.

(** The same on everyday prices: with [0.1, 0.2, 0.3] (the nearest
    float64 numbers, written in hexadecimal) and period 1, the engine
    returns [0.2 - (cumsum[3] - cumsum[2])] at index 2, which is not
    [0.2 - 0.3]. *)
Lemma everyday_prices_differ :
  let prices := [0x1.999999999999ap-4; 0x1.999999999999ap-3; 0x1.3333333333333p-2]%float in
  exists v w,
    run_dpo prices 1 = Ok [nan; v; v]
    /\ spec_value prices 1 2 = Some w
    /\ (v =? w)%float = false.
Proof. cbv zeta. do 2 eexists. vm_compute. repeat split. Qed.

(** ** Periods below 1 *)

Lemma run_dpo_outcome (src : ndarray) period :
  run_dpo src period
  = match dpo_outcome [] src period with
    | (Ok l, news) => match news !! l with Some a => Ok a | None => Raise IndexError end
    | (Raise e, _) => Raise e
    end.
Proof. apply (call_dpo_outcome [src] 0%nat src period eq_refl). Qed.

Lemma period_zero_fails (src : ndarray) :
  src <> [] -> run_dpo src 0 = Raise ValueError.
Proof.
  intros Hne. rewrite run_dpo_outcome. unfold dpo_outcome, broadcast2 at 1.
  destruct src as [|x [|y src]]; [congruence | reflexivity | reflexivity].
Qed.

Lemma period_negative_fails (src : ndarray) period :
  period <= -2 -> src <> [] -> Z.of_nat (length src) <> - period ->
  run_dpo src period = Raise ValueError.
Proof.
  intros Hp Hne Hlen. rewrite run_dpo_outcome. unfold dpo_outcome, broadcast2 at 1.
  assert (Hn : (1 <= length src)%nat) by (destruct src; [congruence | simpl; lia]).
  assert (Hl : length (slice_from (cumsum_of src) period)
               = Nat.min (Z.to_nat (- period)) (S (length src))).
  { unfold slice_from. rewrite length_drop, length_cumsum_of, slice_bound_neg by lia. lia. }
  assert (Hr : length (slice_to (cumsum_of src) (- period))
               = Nat.min (Z.to_nat (- period)) (S (length src))).
  { unfold slice_to. rewrite length_take, length_cumsum_of, slice_bound_nonneg by lia. lia. }
  destruct (decide _) as [_|Hd]; [|congruence].
  set (v := div_scalar _ _).
  assert (Hv : length v = Nat.min (Z.to_nat (- period)) (S (length src))).
  { unfold v, div_scalar. rewrite length_map, length_zip_with, Hl, Hr. lia. }
  unfold assign_from. rewrite length_zeros, slice_bound_neg by lia.
  destruct (decide _) as [Hd|_]; [lia|].
  destruct v as [|a [|b v]]; simpl in Hv; [reflexivity | lia | reflexivity].
Qed.

(** C2, as amended. [_dpo] and [dpo] have no check of [period] and no
    [InvalidPeriod] error. A period below 1 makes the computation fail,
    with the [ValueError] of a shape mismatch and without an output, for
    every non-empty series when the period is 0, and for every non-empty
    series whose length is not [-period] when the period is at most -2. *)
Theorem nonpositive_period_shape_error (prices : ndarray) (period : Z) :
  period < 1 -> prices <> [] ->
  period = 0 \/ (period <= -2 /\ Z.of_nat (length prices) <> - period) ->
  run_dpo prices period = Raise ValueError.
Proof.
  intros _ Hne [-> | [Hp Hlen]].
  - now apply period_zero_fails.
  - now apply period_negative_fails.
Qed.

Lemma nonpositive_period_shape_error_witness :
  run_dpo [1; 2; 3; 4]%float (-3) = Raise ValueError.
Proof.
  apply (nonpositive_period_shape_error [1; 2; 3; 4]%float (-3));
    [lia | discriminate | right; simpl; lia].
Defined.

(** C2 as stated fails: with period -3 and the three prices [1, 2, 3] the
    slices [cumsum[-3:]] and [cumsum[:3]] both have length 3, as has
    [sma[-4:]]; nothing is masked by [dpo[:-5]], and the call returns a
    series of three numbers. *)
Lemma negative_period_returns_series :
  exists a b c,
    run_dpo [1; 2; 3]%float (-3) = Ok [a; b; c]
    /\ is_nan a = false /\ is_nan b = false /\ c = 2%float.
Proof.
  exists (0x1.2aaaaaaaaaaabp+1)%float, (0x1.d555555555555p+1)%float, 2%float.
  vm_compute. repeat split.
Qed.

(** ** Short series, length, the masked prefix *)




(** C7. For a period [P >= 1] the engine returns a series as long as its
    input, whatever the input's length. *)
Theorem output_length (prices : ndarray) (period : Z) :
  1 <= period ->
  exists out, run_dpo prices period = Ok out /\ length out = length prices.
Proof.
  intros Hp. exists (dpo_of prices period).
  split; [now apply run_dpo_pos | now apply length_dpo_of].
Qed.

Lemma output_length_witness :
  exists out, run_dpo s10 5 = Ok out /\ length out = length s10.
Proof. apply (output_length s10 5). lia. Defined.




(** ** The scenario of the specification *)

(** C6. On the series 1, 2, ..., 10 with period 5: [shift] is 3 and the
    cutoff is 7; the engine returns NaN at the indices 0 to 6 and -1 at
    the indices 7, 8 and 9; and the entry point, when the helpers hand it
    that series and [sequential] is false, returns the number -1. *)
Theorem scenario_period_5 (candles : Type)
    (slice_candles : candles -> bool -> candles)
    (get_candle_source : candles -> string -> result ndarray)
    (same_length : candles -> ndarray -> ndarray)
    (cs : candles) (source_type : string) :
  get_candle_source (slice_candles cs false) source_type = Ok s10 ->
  shift_of 5 = 3 /\ cutoff_of 5 = 7
  /\ run_dpo s10 5 = Ok [nan; nan; nan; nan; nan; nan; nan; -1; -1; -1]%float
  /\ dpo candles slice_candles get_candle_source same_length cs 5 source_type false
     = Ok (Scalar (-1)).
Proof.
  intros Hsrc. assert (Hrun : run_dpo s10 5
    = Ok [nan; nan; nan; nan; nan; nan; nan; -1; -1; -1]%float) by (vm_compute; reflexivity).
  split; [reflexivity|]. split; [reflexivity|]. split; [exact Hrun|].
  unfold dpo. rewrite Hsrc, Hrun. reflexivity.
Qed.

Lemma scenario_period_5_witness :
  shift_of 5 = 3 /\ cutoff_of 5 = 7
  /\ run_dpo s10 5 = Ok [nan; nan; nan; nan; nan; nan; nan; -1; -1; -1]%float
  /\ OneColumn.dpo s10 5 "close" false = Ok (Scalar (-1)).
Proof.
  apply (scenario_period_5 ndarray OneColumn.slice_candles OneColumn.get_candle_source
           OneColumn.same_length s10 "close"). reflexivity.
Defined.

Lemma slice_bound_empty k : slice_bound 0 k = 0%nat.
Proof. pose proof (slice_bound_le 0 k). lia. Qed.

Lemma assign_from_empty k x : assign_from [] k [x] = Ok [].
Proof. unfold assign_from. cbn [length]. now rewrite slice_bound_empty. Qed.

Lemma fill_to_empty k x : fill_to [] k x = [].
Proof. unfold fill_to. cbn [length]. now rewrite slice_bound_empty. Qed.

Lemma run_dpo_empty period : run_dpo [] period = Ok [].
Proof.
  destruct (Z.le_gt_cases 1 period) as [Hp|Hp].
  - rewrite run_dpo_pos by exact Hp. f_equal.
    apply nil_length_inv. now rewrite length_dpo_of.
  - rewrite run_dpo_outcome. unfold dpo_outcome.
    destruct (Z.eq_dec period 0) as [->|Hz]; [reflexivity|].
    assert (Hf : slice_from (cumsum_of []) period = [0%float]).
    { unfold slice_from. rewrite slice_bound_neg by lia. simpl.
      replace (1 - Z.to_nat (- period))%nat with 0%nat by lia. reflexivity. }
    assert (Ht : slice_to (cumsum_of []) (- period) = [0%float]).
    { unfold slice_to. rewrite slice_bound_nonneg by lia. simpl.
      replace (Z.to_nat (- period) `min` 1)%nat with 1%nat by lia. reflexivity. }
    rewrite Hf, Ht.
    change (broadcast2 PrimFloat.sub [0%float] [0%float]) with (Ok [(0 - 0)%float]).
    cbv beta iota. change (div_scalar [(0 - 0)%float] period)
      with [((0 - 0) / float_of_int period)%float].
    change (zeros (length [])) with (@nil float).
    rewrite assign_from_empty.
    change (broadcast2 PrimFloat.sub (roll [] (shift_of period)) []) with (Ok (@nil float)).
    cbv beta iota. rewrite fill_to_empty. reflexivity.
Qed.

(** C10. With [sequential] false the entry point indexes the result with
    [-1] unguarded: when the helpers hand it an empty series, the call
    raises [IndexError], whatever the period. *)
Theorem empty_series_index_error (candles : Type)
    (slice_candles : candles -> bool -> candles)
    (get_candle_source : candles -> string -> result ndarray)
    (same_length : candles -> ndarray -> ndarray)
    (cs : candles) (period : Z) (source_type : string) :
  get_candle_source (slice_candles cs false) source_type = Ok [] ->
  dpo candles slice_candles get_candle_source same_length cs period source_type false
  = Raise IndexError.
Proof.
  intros Hsrc. unfold dpo. rewrite Hsrc, run_dpo_empty. reflexivity.
Qed.

Lemma empty_series_index_error_witness :
  OneColumn.dpo [] 5 "close" false = Raise IndexError.
Proof.
  apply (empty_series_index_error ndarray OneColumn.slice_candles
           OneColumn.get_candle_source OneColumn.same_length [] 5 "close").
  reflexivity.
Defined.

(** ** Effects on the store *)

(** Whatever the answer, the store after the call is the store before it
    followed by the new buffers. *)
Lemma dpo_outcome_extends (h : store) (src : ndarray) period :
  exists news, snd (dpo_outcome h src period) = h ++ news.
Proof.
  unfold dpo_outcome.
  repeat match goal with |- context [match ?r with Ok _ => _ | Raise _ => _ end] =>
    destruct r end; cbn [snd]; eexists; reflexivity.
Qed.

(** C8. A call of the engine leaves its input series as it was, and every
    other array that existed before the call: the store after the call,
    whether the call returns or raises, is the store before it extended
    with the buffers the call has allocated. *)
Theorem input_not_mutated (h : store) (source : loc) (prices : ndarray) (period : Z) :
  h !! source = Some prices ->
  snd (_dpo source period h) !! source = Some prices
  /\ (forall l a, h !! l = Some a -> snd (_dpo source period h) !! l = Some a)
  /\ exists news, snd (_dpo source period h) = h ++ news.
Proof.
  intros Hs. rewrite (_dpo_run h source prices period Hs).
  destruct (dpo_outcome_extends h prices period) as [news ->].
  split; [now apply store_lookup_old|].
  split; [intros l a; apply store_lookup_old | now exists news].
Qed.

Lemma input_not_mutated_witness :
  snd (_dpo 1%nat 5 [[7; 7]%float; s10]) !! 1%nat = Some s10
  /\ (forall l a, [[7; 7]%float; s10] !! l = Some a ->
      snd (_dpo 1%nat 5 [[7; 7]%float; s10]) !! l = Some a)
  /\ exists news, snd (_dpo 1%nat 5 [[7; 7]%float; s10]) = [[7; 7]%float; s10] ++ news.
Proof. apply (input_not_mutated [[7; 7]%float; s10] 1%nat s10 5). reflexivity. Defined.

(** C9. Two calls with the same price series and the same period give the
    same answer, the same exception or series equal entry by entry, in
    whatever stores, and at whatever places in them, the two series are
    held. *)
Theorem dpo_deterministic (h1 h2 : store) (source1 source2 : loc)
    (prices : ndarray) (period : Z) :
  h1 !! source1 = Some prices -> h2 !! source2 = Some prices ->
  call_dpo h1 source1 period = call_dpo h2 source2 period.
Proof.
  intros H1 H2.
  rewrite (call_dpo_outcome h1 source1 prices period H1).
  rewrite (call_dpo_outcome h2 source2 prices period H2). reflexivity.
Qed.

Lemma dpo_deterministic_witness :
  call_dpo [s10] 0%nat 5 = call_dpo [[7; 7]%float; s10; []] 1%nat 5.
Proof.
  apply (dpo_deterministic [s10] [[7; 7]%float; s10; []] 0%nat 1%nat s10 5); reflexivity.
Defined.

(** ** NaN past the cutoff *)

Lemma forallb_lookup {A} (f : A -> bool) (l : list A) : forall i x,
  forallb f l = true -> l !! i = Some x -> f x = true.
Proof.
  induction l as [|y l IH]; intros i x Hall Hi; [discriminate Hi|].
  simpl in Hall. apply andb_prop in Hall as [Hy Hl].
  destruct i as [|i]; simpl in Hi; [congruence | eauto].
Qed.

Lemma float_of_int_pos period :
  1 <= period -> float_of_int period = of_uint63 (Uint63.of_Z period).
Proof. intros Hp. unfold float_of_int. destruct (Z.ltb_spec period 0); [lia | reflexivity]. Qed.

(** C4, as amended. For a period [P >= 1] whose cutoff
    [P - 1 + P//2 + 1] is below 2^63, and a series of finite prices whose
    running sum never overflows (every entry of [cumsum] is finite), the
    output is NaN at every index below the cutoff and is not NaN at any
    index from there on. *)
Theorem nan_exactly_below_cutoff (prices : ndarray) (period : Z) :
  1 <= period -> cutoff_of period < 2 ^ 63 ->
  all_finite prices = true ->
  all_finite (cumsum_of prices) = true ->
  exists out,
    run_dpo prices period = Ok out
    /\ length out = length prices
    /\ forall i, (i < length prices)%nat ->
         (Z.of_nat i < cutoff_of period -> out !! i = Some nan)
         /\ (cutoff_of period <= Z.of_nat i ->
             exists v, out !! i = Some v /\ is_nan v = false).
Proof.
  intros Hp H63 Hfin Hsum. exists (dpo_of prices period).
  destruct (shift_cutoff_bounds period Hp) as (_ & Hpc & _).
  split; [now apply run_dpo_pos|]. split; [now apply length_dpo_of|].
  intros i Hi. split.
  - intros Hc. now apply dpo_of_masked.
  - intros Hc. destruct (dpo_of_defined prices period i Hp H63 Hc Hi) as (x & Hx & ->).
    eexists. split; [reflexivity|].
    assert (Hc1 : is_finite (prefix_sum prices (S i)) = true).
    { apply (forallb_lookup _ _ (S i) _ Hsum), cumsum_of_lookup. lia. }
    assert (Hc2 : is_finite (prefix_sum prices (S i - Z.to_nat period)) = true).
    { apply (forallb_lookup _ _ (S i - Z.to_nat period)%nat _ Hsum), cumsum_of_lookup. lia. }
    rewrite float_of_int_pos by exact Hp.
    apply sub_not_nan; [exact (forallb_lookup _ _ _ _ Hfin Hx)|].
    apply div_not_nan; [|lia].
    apply sub_not_nan; [exact Hc1 | now apply finite_not_nan].
Qed.

Lemma nan_exactly_below_cutoff_witness :
  exists out,
    run_dpo s10 5 = Ok out
    /\ length out = length s10
    /\ forall i, (i < length s10)%nat ->
         (Z.of_nat i < cutoff_of 5 -> out !! i = Some nan)
         /\ (cutoff_of 5 <= Z.of_nat i ->
             exists v, out !! i = Some v /\ is_nan v = false).
Proof.
  apply (nan_exactly_below_cutoff s10 5);
    [lia | vm_compute; reflexivity | vm_compute; reflexivity | vm_compute; reflexivity].
Defined.

(** C4 as stated fails: the three prices [2^1023, 2^1023, 2^1023] are
    finite, and with period 1 the cutoff is 1; but [cumsum] is
    [0, 2^1023, inf, inf], so [sma[2]] is [inf - inf], and the output at
    index 2 is NaN. *)
Lemma finite_prices_nan_past_cutoff :
  let prices := [0x1p1023; 0x1p1023; 0x1p1023]%float in
  all_finite prices = true
  /\ cutoff_of 1 <= 2 < Z.of_nat (length prices)
  /\ cumsum_of prices = [0; 0x1p1023; infinity; infinity]%float
  /\ run_dpo prices 1 = Ok [nan; neg_infinity; nan].
Proof.
  cbv zeta. split; [vm_compute; reflexivity|].
  split; [vm_compute; split; congruence|].
  split; vm_compute; reflexivity.
Qed.

(** The bound on the cutoff is needed as well: with the period
    [6148914691236517206], the least whose cutoff reaches 2^63, line 26
    computes [-2^63 + 1] and overwrites nothing; on the series 1, ..., 10
    every output entry is a price, rolled by [shift] (4 places, modulo
    10), and none is NaN. *)
Lemma nothing_masked_int64_wrap :
  let period := 6148914691236517206 in
  1 <= period < 2 ^ 63
  /\ cutoff_of period = 2 ^ 63 + 1
  /\ mask_bound period = - 2 ^ 63 + 1
  /\ run_dpo s10 period = Ok [7; 8; 9; 10; 1; 2; 3; 4; 5; 6]%float.
Proof. cbv zeta. split; [lia|]. repeat split; vm_compute; reflexivity. Qed.

(** * Further properties of the code *)

(** X1. For a period [P >= 1], a call of the engine returns at the new
    location [len(store) + 4], and appends to the store, in this order,
    [sma], [temp] (a zero followed by the prices), [cumsum] (the running
    sums), [shifted_source] (the prices rolled by [shift]) and the
    returned series: the differences [shifted_source - sma] with NaN
    written over the entries below the int64 bound of line 26. *)
Theorem buffers_after_call (h : store) (source : loc) (prices : ndarray) (period : Z) :
  h !! source = Some prices -> 1 <= period ->
  _dpo source period h
  = (Ok (length h + 4)%nat,
     h ++ [sma_of prices period; 0%float :: prices; cumsum_of prices;
           roll prices (shift_of period); dpo_of prices period]).
Proof.
  intros Hs Hp. rewrite (_dpo_run h source prices period Hs).
  now apply dpo_outcome_pos.
Qed.

Lemma buffers_after_call_witness :
  _dpo 0%nat 5 [s10]
  = (Ok 5%nat,
     [s10; sma_of s10 5; 0%float :: s10; cumsum_of s10; roll s10 (shift_of 5); dpo_of s10 5]).
Proof. apply (buffers_after_call [s10] 0%nat s10 5); [reflexivity | lia]. Defined.

(** X2. For a period [P >= 1], the moving-average buffer [sma] that a
    call leaves in the store (its first allocation) has the length of the
    prices; it keeps the zero of [np.zeros_like] below index [P - 1], and
    from there on holds [(cumsum[i+1] - cumsum[i+1-P]) / P]. *)
Theorem sma_buffer (h : store) (source : loc) (prices : ndarray) (period : Z) (i : nat) :
  h !! source = Some prices -> 1 <= period -> (i < length prices)%nat ->
  exists sma,
    snd (_dpo source period h) !! length h = Some sma
    /\ length sma = length prices
    /\ (Z.of_nat i < period - 1 -> sma !! i = Some 0%float)
    /\ (period - 1 <= Z.of_nat i ->
        sma !! i
        = Some ((prefix_sum prices (S i) - prefix_sum prices (S i - Z.to_nat period))
                / float_of_int period)%float).
Proof.
  intros Hs Hp Hi. exists (sma_of prices period).
  rewrite (_dpo_run h source prices period Hs), dpo_outcome_pos by exact Hp.
  cbn [snd]. rewrite store_lookup_new0.
  split; [reflexivity|]. split; [now apply length_sma_of|]. split.
  - intros Hlt. unfold sma_of.
    rewrite slice_bound_nonneg by lia.
    rewrite lookup_app_l by (rewrite length_take, length_zeros; lia).
    rewrite lookup_take_lt by lia. apply lookup_replicate_2. lia.
  - intros Hge. now apply sma_of_lookup.
Qed.

Lemma sma_buffer_witness :
  exists sma,
    snd (_dpo 0%nat 5 [s10]) !! length [s10] = Some sma
    /\ length sma = length s10
    /\ (Z.of_nat 4 < 5 - 1 -> sma !! 4%nat = Some 0%float)
    /\ (5 - 1 <= Z.of_nat 4 ->
        sma !! 4%nat
        = Some ((prefix_sum s10 5 - prefix_sum s10 (5 - Z.to_nat 5)) / float_of_int 5)%float).
Proof. apply (sma_buffer [s10] 0%nat s10 5 4); [reflexivity | lia | simpl; lia]. Defined.

(** X3. With [sequential] true and a period [P >= 1], the entry point
    returns what [same_length] makes of the sliced candles and the
    engine's whole series, which is as long as the extracted prices. *)
Theorem sequential_returns_series (candles : Type)
    (slice_candles : candles -> bool -> candles)
    (get_candle_source : candles -> string -> result ndarray)
    (same_length : candles -> ndarray -> ndarray)
    (cs : candles) (period : Z) (source_type : string) (prices : ndarray) :
  get_candle_source (slice_candles cs true) source_type = Ok prices ->
  1 <= period ->
  exists out,
    run_dpo prices period = Ok out /\ length out = length prices
    /\ dpo candles slice_candles get_candle_source same_length cs period source_type true
       = Ok (Series (same_length (slice_candles cs true) out)).
Proof.
  intros Hsrc Hp. exists (dpo_of prices period).
  split; [now apply run_dpo_pos|]. split; [now apply length_dpo_of|].
  unfold dpo. rewrite Hsrc, run_dpo_pos by exact Hp. reflexivity.
Qed.

Lemma sequential_returns_series_witness :
  exists out,
    run_dpo s10 5 = Ok out /\ length out = length s10
    /\ OneColumn.dpo s10 5 "close" true = Ok (Series (OneColumn.same_length s10 out)).
Proof.
  apply (sequential_returns_series ndarray OneColumn.slice_candles
           OneColumn.get_candle_source OneColumn.same_length s10 5 "close" s10);
    [reflexivity | lia].
Defined.

(** An exception raised by [get_candle_source] is raised, unchanged, by
    the entry point; the engine is not called. *)
Theorem source_error_propagates (candles : Type)
    (slice_candles : candles -> bool -> candles)
    (get_candle_source : candles -> string -> result ndarray)
    (same_length : candles -> ndarray -> ndarray)
    (cs : candles) (period : Z) (source_type : string) (sequential : bool) (e : exn) :
  get_candle_source (slice_candles cs sequential) source_type = Raise e ->
  dpo candles slice_candles get_candle_source same_length cs period source_type sequential
  = Raise e.
Proof. intros Hsrc. unfold dpo. now rewrite Hsrc. Qed.

Lemma source_error_propagates_witness :
  dpo ndarray OneColumn.slice_candles (fun _ _ => Raise UnknownSourceType)
      OneColumn.same_length s10 5 "median" false
  = Raise UnknownSourceType.
Proof.
  apply (source_error_propagates ndarray OneColumn.slice_candles
           (fun _ _ => Raise UnknownSourceType) OneColumn.same_length
           s10 5 "median" false UnknownSourceType).
  reflexivity.
Defined.

(** X5. With [sequential] false, a period [P >= 1] whose cutoff
    [P - 1 + P//2 + 1] is below 2^63 and a non-empty series of at most
    that many prices, the entry point returns NaN. *)
Theorem insufficient_history_scalar_nan (candles : Type)
    (slice_candles : candles -> bool -> candles)
    (get_candle_source : candles -> string -> result ndarray)
    (same_length : candles -> ndarray -> ndarray)
    (cs : candles) (period : Z) (source_type : string) (prices : ndarray) :
  get_candle_source (slice_candles cs false) source_type = Ok prices ->
  1 <= period -> cutoff_of period < 2 ^ 63 ->
  prices <> [] -> Z.of_nat (length prices) <= cutoff_of period ->
  dpo candles slice_candles get_candle_source same_length cs period source_type false
  = Ok (Scalar nan).
Proof.
  intros Hsrc Hp H63 Hne Hlen. unfold dpo. rewrite Hsrc, run_dpo_pos by exact Hp.
  assert (Hn : (0 < length prices)%nat) by (destruct prices; [congruence | simpl; lia]).
  assert (Hlast : dpo_of prices period !! (length prices - 1)%nat = Some nan)
    by (apply dpo_of_masked; [exact Hp | exact H63 | lia | lia]).
  assert (Hget : getitem (dpo_of prices period) (-1) = Ok nan).
  { unfold getitem. rewrite length_dpo_of by exact Hp.
    destruct (Z.ltb_spec (-1) 0); [|lia].
    destruct (Z.leb_spec 0 (-1 + Z.of_nat (length prices))); [|lia].
    destruct (Z.ltb_spec (-1 + Z.of_nat (length prices)) (Z.of_nat (length prices))); [|lia].
    cbn [andb].
    replace (Z.to_nat (-1 + Z.of_nat (length prices))) with (length prices - 1)%nat by lia.
    now rewrite Hlast. }
  now rewrite Hget.
Qed.

Lemma insufficient_history_scalar_nan_witness :
  OneColumn.dpo [1; 2; 3]%float 5 "close" false = Ok (Scalar nan).
Proof.
  apply (insufficient_history_scalar_nan ndarray OneColumn.slice_candles
           OneColumn.get_candle_source OneColumn.same_length
           [1; 2; 3]%float 5 "close" [1; 2; 3]%float);
    [reflexivity | lia | vm_compute; reflexivity | discriminate | vm_compute; congruence].
Defined.

(** X6. Whatever the period, the buffer [cumsum] that a call leaves in
    the store (its third allocation) holds the running sums of lines
    17-18: [cumsum[k]] is the float64 sum of the first [k] prices, added
    to 0 in index order. *)
Theorem cumsum_buffer (h : store) (source : loc) (prices : ndarray) (period : Z) (k : nat) :
  h !! source = Some prices -> (k <= length prices)%nat ->
  snd (_dpo source period h) !! (length h + 2)%nat = Some (cumsum_of prices)
  /\ cumsum_of prices !! k = Some (prefix_sum prices k).
Proof.
  intros Hs Hk. split; [|now apply cumsum_of_lookup].
  rewrite (_dpo_run h source prices period Hs). unfold dpo_outcome.
  repeat match goal with |- context [match ?r with Ok _ => _ | Raise _ => _ end] =>
    destruct r end; cbn [snd]; now rewrite store_lookup_new.
Qed.

Lemma cumsum_buffer_witness :
  snd (_dpo 0%nat 5 [s10]) !! (length [s10] + 2)%nat = Some (cumsum_of s10)
  /\ cumsum_of s10 !! 10%nat = Some (prefix_sum s10 10).
Proof. apply (cumsum_buffer [s10] 0%nat s10 5 10); [reflexivity | simpl; lia]. Defined.

(** ** No look-ahead *)

Lemma prefix_sum_take (prices : ndarray) (k j : nat) :
  (j <= k)%nat -> prefix_sum (take k prices) j = prefix_sum prices j.
Proof.
  intros Hj. unfold prefix_sum. rewrite take_take.
  now replace (j `min` k)%nat with j by lia.
Qed.

Lemma dpo_of_take (prices : ndarray) (period : Z) (k : nat) :
  1 <= period -> cutoff_of period < 2 ^ 63 -> (k <= length prices)%nat ->
  dpo_of (take k prices) period = take k (dpo_of prices period).
Proof.
  intros Hp H63 Hk. destruct (shift_cutoff_bounds period Hp) as ([Hs1 Hs2] & Hpc & Hsc).
  assert (Hlen : length (take k prices) = k) by (rewrite length_take; lia).
  apply list_eq. intros i.
  destruct (decide (i < k)%nat) as [Hi|Hi]; cycle 1.
  { rewrite lookup_ge_None_2 by (rewrite length_dpo_of, Hlen; [lia | exact Hp]).
    symmetry. apply lookup_ge_None_2.
    rewrite length_take, length_dpo_of by exact Hp. lia. }
  rewrite lookup_take_lt by exact Hi.
  destruct (decide (Z.of_nat i < cutoff_of period)) as [Hc|Hc].
  - rewrite !dpo_of_masked; [reflexivity | exact Hp | exact H63 | lia | exact Hc
                             | exact Hp | exact H63 | rewrite Hlen; exact Hi | exact Hc].
  - destruct (dpo_of_defined prices period i Hp H63 ltac:(lia) ltac:(lia))
      as (x & Hx & ->).
    destruct (dpo_of_defined (take k prices) period i Hp H63 ltac:(lia) ltac:(lia))
      as (y & Hy & ->).
    rewrite lookup_take_lt in Hy by lia.
    rewrite !prefix_sum_take by lia. congruence.
Qed.

(** X7. No look-ahead: for a period [P >= 1] whose cutoff
    [P - 1 + P//2 + 1] is below 2^63, the engine run on the first [k]
    prices returns the first [k] entries of what it returns on the whole
    series; an output entry does not depend on later prices. *)
Theorem output_of_prefix (prices : ndarray) (period : Z) (k : nat) :
  1 <= period -> cutoff_of period < 2 ^ 63 -> (k <= length prices)%nat ->
  exists out,
    run_dpo prices period = Ok out
    /\ run_dpo (take k prices) period = Ok (take k out).
Proof.
  intros Hp H63 Hk. exists (dpo_of prices period).
  rewrite !run_dpo_pos by exact Hp. split; [reflexivity|].
  f_equal. now apply dpo_of_take.
Qed.

Lemma output_of_prefix_witness :
  exists out,
    run_dpo s10 5 = Ok out
    /\ run_dpo (take 9 s10) 5 = Ok (take 9 out).
Proof.
  apply (output_of_prefix s10 5 9); [lia | vm_compute; reflexivity | simpl; lia].
Defined.

(** ** A NaN among the prices *)

Lemma is_nan_eq x : is_nan x = true -> x = nan.
Proof.
  rewrite is_nan_Prim2SF. intros Hx. apply Prim2SF_inj.
  destruct (Prim2SF x); try discriminate Hx. reflexivity.
Qed.

Lemma add_nan_l x y : is_nan x = true -> is_nan (x + y) = true.
Proof.
  rewrite !is_nan_Prim2SF, FloatAxioms.add_spec. unfold SF64add, SFadd.
  destruct (Prim2SF x); try discriminate. reflexivity.
Qed.

Lemma add_nan_r x y : is_nan y = true -> is_nan (x + y) = true.
Proof.
  rewrite !is_nan_Prim2SF, FloatAxioms.add_spec. unfold SF64add, SFadd.
  destruct (Prim2SF y); try discriminate. now destruct (Prim2SF x).
Qed.

Lemma sub_nan_l x y : is_nan x = true -> is_nan (x - y) = true.
Proof.
  rewrite !is_nan_Prim2SF, FloatAxioms.sub_spec. unfold SF64sub, SFsub.
  destruct (Prim2SF x); try discriminate. reflexivity.
Qed.

Lemma sub_nan_r x y : is_nan y = true -> is_nan (x - y) = true.
Proof.
  rewrite !is_nan_Prim2SF, FloatAxioms.sub_spec. unfold SF64sub, SFsub.
  destruct (Prim2SF y); try discriminate. now destruct (Prim2SF x).
Qed.

Lemma div_nan_l x y : is_nan x = true -> is_nan (x / y) = true.
Proof.
  rewrite !is_nan_Prim2SF, FloatAxioms.div_spec. unfold SF64div, SFdiv.
  destruct (Prim2SF x); try discriminate. reflexivity.
Qed.

(** Once NaN, a running sum stays NaN. *)
Lemma fold_add_nan (l : ndarray) : forall acc,
  is_nan acc = true -> is_nan (fold_left PrimFloat.add l acc) = true.
Proof.
  induction l as [|y l IH]; intros acc Hacc; simpl; [exact Hacc|].
  apply IH. now apply add_nan_l.
Qed.

Lemma fold_add_nan_elem (l : ndarray) : forall acc j x,
  l !! j = Some x -> is_nan x = true ->
  is_nan (fold_left PrimFloat.add l acc) = true.
Proof.
  induction l as [|y l IH]; intros acc j x Hj Hx; [discriminate Hj|].
  destruct j as [|j]; simpl in *.
  - injection Hj as ->. apply fold_add_nan. now apply add_nan_r.
  - eapply IH; eassumption.
Qed.

Lemma prefix_sum_nan (prices : ndarray) (j k : nat) x :
  prices !! j = Some x -> is_nan x = true -> (j < k)%nat ->
  is_nan (prefix_sum prices k) = true.
Proof.
  intros Hj Hx Hk. unfold prefix_sum.
  apply (fold_add_nan_elem _ _ j x); [|exact Hx].
  now rewrite lookup_take_lt.
Qed.

(** X8. For a period [P >= 1] whose cutoff [P - 1 + P//2 + 1] is below
    2^63, a NaN price at index [j] makes every output entry from index
    [j] on NaN, however far past the window of [P] prices: the running
    sum [cumsum] is NaN from [j + 1] on. *)
Theorem nan_price_poisons_tail (prices : ndarray) (period : Z) (j i : nat) (x : float) :
  1 <= period -> cutoff_of period < 2 ^ 63 ->
  prices !! j = Some x -> is_nan x = true ->
  (j <= i < length prices)%nat ->
  exists out, run_dpo prices period = Ok out /\ out !! i = Some nan.
Proof.
  intros Hp H63 Hj Hx [Hji Hi]. exists (dpo_of prices period).
  split; [now apply run_dpo_pos|].
  destruct (decide (Z.of_nat i < cutoff_of period)) as [Hc|Hc].
  - now apply dpo_of_masked.
  - destruct (dpo_of_defined prices period i Hp H63 ltac:(lia) Hi) as (y & Hy & ->).
    f_equal. apply is_nan_eq, sub_nan_r, div_nan_l, sub_nan_l.
    apply (prefix_sum_nan prices j (S i) x Hj Hx). lia.
Qed.

Lemma nan_price_poisons_tail_witness :
  exists out,
    run_dpo [1; nan; 3; 4; 5; 6; 7; 8]%float 2 = Ok out /\ out !! 7%nat = Some nan.
Proof.
  apply (nan_price_poisons_tail [1; nan; 3; 4; 5; 6; 7; 8]%float 2 1 7 nan);
    [lia | vm_compute; reflexivity | reflexivity | reflexivity | simpl; lia].
Defined.

(** ** The masked prefix, whatever the prices *)

(** X9. For a period [P >= 1] with [P + P//2] below 2^63, the bound
    [period - 1 + shift] of line 26 is [P + P//2], and the first
    [min(N, P + P//2)] output entries are NaN whatever the prices are
    (finite or not). *)
Theorem leading_nan_block (prices : ndarray) (period : Z) :
  1 <= period -> period + period / 2 < 2 ^ 63 ->
  mask_bound period = period + period / 2
  /\ cutoff_of period = period + period / 2
  /\ exists out,
       run_dpo prices period = Ok out
       /\ take (Z.to_nat (cutoff_of period) `min` length prices) out
          = replicate (Z.to_nat (cutoff_of period) `min` length prices) nan.
Proof.
  intros Hp H63.
  assert (Hc : cutoff_of period = period + period / 2)
    by (unfold cutoff_of, shift_of; lia).
  assert (Hm : mask_bound period = cutoff_of period)
    by (apply mask_bound_cutoff; lia).
  split; [congruence|]. split; [exact Hc|].
  destruct (shift_cutoff_bounds period Hp) as (_ & Hpc & _).
  exists (dpo_of prices period). split; [now apply run_dpo_pos|].
  unfold dpo_of, fill_to.
  rewrite length_zip_with, length_roll, length_sma_of by exact Hp.
  rewrite Hm, slice_bound_nonneg by lia.
  replace (Z.to_nat (cutoff_of period) `min` (length prices `min` length prices))%nat
    with (Z.to_nat (cutoff_of period) `min` length prices)%nat by lia.
  rewrite take_app_length'; [reflexivity | now rewrite length_replicate].
Qed.

Lemma leading_nan_block_witness :
  mask_bound 4 = 4 + 4 / 2
  /\ cutoff_of 4 = 4 + 4 / 2
  /\ exists out,
       run_dpo [1; infinity; nan; 4; 5; 6; 7; 8]%float 4 = Ok out
       /\ take (Z.to_nat (cutoff_of 4) `min` length [1; infinity; nan; 4; 5; 6; 7; 8]%float) out
          = replicate
              (Z.to_nat (cutoff_of 4) `min` length [1; infinity; nan; 4; 5; 6; 7; 8]%float) nan.
Proof.
  apply (leading_nan_block [1; infinity; nan; 4; 5; 6; 7; 8]%float 4);
    [lia | vm_compute; reflexivity].
Defined.

(** ** The entry point without [sequential] *)

Lemma getitem_last (a : ndarray) v :
  (0 < length a)%nat -> a !! (length a - 1)%nat = Some v -> getitem a (-1) = Ok v.
Proof.
  intros Hn Hv. unfold getitem.
  destruct (Z.ltb_spec (-1) 0); [|lia].
  destruct (Z.leb_spec 0 (-1 + Z.of_nat (length a))); [|lia].
  destruct (Z.ltb_spec (-1 + Z.of_nat (length a)) (Z.of_nat (length a))); [|lia].
  cbn [andb].
  replace (Z.to_nat (-1 + Z.of_nat (length a))) with (length a - 1)%nat by lia.
  now rewrite Hv.
Qed.

(** X10. With [sequential] false, a period [P >= 1] and more than
    [P - 1 + shift] prices (fewer than 2^63, as in every array), the
    entry point returns the number
    [prices[N-1-shift] - (cumsum[N] - cumsum[N-P]) / P]: the newest
    output, computed from the price [shift] places before the newest one
    and the last [P] prices. *)
Theorem latest_value (candles : Type)
    (slice_candles : candles -> bool -> candles)
    (get_candle_source : candles -> string -> result ndarray)
    (same_length : candles -> ndarray -> ndarray)
    (cs : candles) (period : Z) (source_type : string) (prices : ndarray) :
  get_candle_source (slice_candles cs false) source_type = Ok prices ->
  1 <= period -> cutoff_of period < Z.of_nat (length prices) ->
  Z.of_nat (length prices) < 2 ^ 63 ->
  exists x,
    prices !! (length prices - 1 - Z.to_nat (shift_of period))%nat = Some x
    /\ dpo candles slice_candles get_candle_source same_length cs period source_type false
       = Ok (Scalar (x - (prefix_sum prices (length prices)
                          - prefix_sum prices (length prices - Z.to_nat period))
                         / float_of_int period)%float).
Proof.
  intros Hsrc Hp Hlen HN. destruct (shift_cutoff_bounds period Hp) as (_ & Hpc & _).
  assert (H63 : cutoff_of period < 2 ^ 63) by lia.
  assert (Hlo : cutoff_of period <= Z.of_nat (length prices - 1)) by lia.
  assert (Hhi : (length prices - 1 < length prices)%nat) by lia.
  destruct (dpo_of_defined prices period (length prices - 1) Hp H63 Hlo Hhi)
    as (x & Hx & Hout).
  exists x. split; [exact Hx|].
  replace (S (length prices - 1)) with (length prices) in Hout by lia.
  unfold dpo. rewrite Hsrc, run_dpo_pos by exact Hp.
  rewrite (getitem_last (dpo_of prices period)
             (x - (prefix_sum prices (length prices)
                   - prefix_sum prices (length prices - Z.to_nat period))
                  / float_of_int period)%float).
  - reflexivity.
  - rewrite length_dpo_of by exact Hp. lia.
  - rewrite length_dpo_of by exact Hp. exact Hout.
Qed.

Lemma latest_value_witness :
  exists x,
    s10 !! (length s10 - 1 - Z.to_nat (shift_of 5))%nat = Some x
    /\ OneColumn.dpo s10 5 "close" false
       = Ok (Scalar (x - (prefix_sum s10 (length s10)
                          - prefix_sum s10 (length s10 - Z.to_nat 5))
                         / float_of_int 5)%float).
Proof.
  apply (latest_value ndarray OneColumn.slice_candles OneColumn.get_candle_source
           OneColumn.same_length s10 5 "close" s10);
    [reflexivity | lia | vm_compute; reflexivity | vm_compute; reflexivity].
Defined.

(** X11. With [sequential] false and a period [P >= 1], the entry point
    raises only on an empty series, and then [IndexError]; on any other
    series it returns a number, the last entry of the engine's output. It
    never returns a series. *)
Theorem nonsequential_outcome (candles : Type)
    (slice_candles : candles -> bool -> candles)
    (get_candle_source : candles -> string -> result ndarray)
    (same_length : candles -> ndarray -> ndarray)
    (cs : candles) (period : Z) (source_type : string) (prices : ndarray) :
  get_candle_source (slice_candles cs false) source_type = Ok prices ->
  1 <= period ->
  match dpo candles slice_candles get_candle_source same_length cs period source_type false with
  | Ok (Scalar v) =>
      prices <> [] /\ exists out, run_dpo prices period = Ok out /\ last out = Some v
  | Ok (Series _) => False
  | Raise e => e = IndexError /\ prices = []
  end.
Proof.
  intros Hsrc Hp. unfold dpo. rewrite Hsrc, run_dpo_pos by exact Hp.
  destruct (decide (prices = [])) as [->|Hne].
  - replace (dpo_of [] period) with (@nil float)
      by (symmetry; apply nil_length_inv; now rewrite length_dpo_of).
    rewrite getitem_last_empty. split; reflexivity.
  - assert (Hn : (0 < length prices)%nat) by (destruct prices; [congruence | simpl; lia]).
    destruct (lookup_lt_is_Some_2 (dpo_of prices period) (length prices - 1)%nat)
      as [v Hv]; [rewrite length_dpo_of by exact Hp; lia|].
    rewrite (getitem_last (dpo_of prices period) v);
      [| rewrite length_dpo_of by exact Hp; exact Hn
       | rewrite length_dpo_of by exact Hp; exact Hv].
    split; [exact Hne|]. exists (dpo_of prices period). split; [reflexivity|].
    rewrite last_lookup, length_dpo_of by exact Hp.
    now replace (Nat.pred (length prices)) with (length prices - 1)%nat by lia.
Qed.

Lemma nonsequential_outcome_witness :
  match OneColumn.dpo [1; 2; 3]%float 5 "close" false with
  | Ok (Scalar v) =>
      [1; 2; 3]%float <> []
      /\ exists out, run_dpo [1; 2; 3]%float 5 = Ok out /\ last out = Some v
  | Ok (Series _) => False
  | Raise e => e = IndexError /\ [1; 2; 3]%float = []
  end.
Proof.
  apply (nonsequential_outcome ndarray OneColumn.slice_candles OneColumn.get_candle_source
           OneColumn.same_length [1; 2; 3]%float 5 "close" [1; 2; 3]%float);
    [reflexivity | lia].
Defined.

(** X12. A period of 0, or a period [<= -2] other than minus the number of
    prices, makes the entry point raise [ValueError] on a non-empty
    series, in both modes: the engine's exception passes through [dpo],
    and [same_length] and the indexing [res[-1]] are not reached. *)
Theorem bad_period_raises (candles : Type)
    (slice_candles : candles -> bool -> candles)
    (get_candle_source : candles -> string -> result ndarray)
    (same_length : candles -> ndarray -> ndarray)
    (cs : candles) (period : Z) (source_type : string) (sequential : bool)
    (prices : ndarray) :
  get_candle_source (slice_candles cs sequential) source_type = Ok prices ->
  prices <> [] ->
  period = 0 \/ (period <= -2 /\ Z.of_nat (length prices) <> - period) ->
  dpo candles slice_candles get_candle_source same_length cs period source_type sequential
  = Raise ValueError.
Proof.
  intros Hsrc Hne Hbad. unfold dpo. rewrite Hsrc.
  destruct Hbad as [-> | [Hp Hlen]].
  - now rewrite period_zero_fails.
  - now rewrite period_negative_fails.
Qed.

Lemma bad_period_raises_witness :
  OneColumn.dpo s10 0 "close" true = Raise ValueError.
Proof.
  apply (bad_period_raises ndarray OneColumn.slice_candles OneColumn.get_candle_source
           OneColumn.same_length s10 0 "close" true s10);
    [reflexivity | discriminate | left; reflexivity].
Defined.

(** ** The rolled prices *)

Lemma roll_Permutation (a : ndarray) s : roll a s ≡ₚ a.
Proof.
  unfold roll. destruct (length a) as [|n]; [reflexivity|].
  rewrite Permutation_app_comm. now rewrite take_drop.
Qed.

(** X13. For a period [P >= 1], the buffer [shifted_source] that a call
    leaves in the store (its fourth allocation) is a rearrangement of the
    prices: entry [i] is [prices[(i - shift) mod N]], which for
    [i >= shift] is the price [shift] places earlier. *)
Theorem shifted_source_buffer (h : store) (source : loc) (prices : ndarray)
    (period : Z) (i : nat) :
  h !! source = Some prices -> 1 <= period -> (i < length prices)%nat ->
  exists shifted,
    snd (_dpo source period h) !! (length h + 3)%nat = Some shifted
    /\ shifted ≡ₚ prices
    /\ shifted !! i
       = prices !! Z.to_nat ((Z.of_nat i - shift_of period) mod Z.of_nat (length prices))
    /\ (shift_of period <= Z.of_nat i ->
        shifted !! i = prices !! (i - Z.to_nat (shift_of period))%nat).
Proof.
  intros Hs Hp Hi. destruct (shift_cutoff_bounds period Hp) as ([Hs1 _] & _).
  exists (roll prices (shift_of period)).
  rewrite (_dpo_run h source prices period Hs), dpo_outcome_pos by exact Hp.
  cbn [snd]. rewrite store_lookup_new.
  split; [reflexivity|]. split; [apply roll_Permutation|].
  split; [now apply roll_lookup|].
  intros Hge. rewrite roll_lookup by exact Hi.
  rewrite Z.mod_small by lia. f_equal. lia.
Qed.

Lemma shifted_source_buffer_witness :
  exists shifted,
    snd (_dpo 0%nat 5 [s10]) !! (length [s10] + 3)%nat = Some shifted
    /\ shifted ≡ₚ s10
    /\ shifted !! 7%nat
       = s10 !! Z.to_nat ((Z.of_nat 7 - shift_of 5) mod Z.of_nat (length s10))
    /\ (shift_of 5 <= Z.of_nat 7 ->
        shifted !! 7%nat = s10 !! (7 - Z.to_nat (shift_of 5))%nat).
Proof.
  apply (shifted_source_buffer [s10] 0%nat s10 5 7); [reflexivity | lia | simpl; lia].
Defined.

(** ** An infinite price *)

Lemma is_infinity_Prim2SF x :
  is_infinity x = true -> exists s, Prim2SF x = S754_infinity s.
Proof.
  unfold is_infinity. rewrite FloatAxioms.eqb_spec, abs_spec, Prim2SF_infinity.
  destruct (Prim2SF x) as [[|]|s| |[|] m e]; try discriminate. eauto.
Qed.

Lemma SFadd_inf_or_nan_l s a y :
  sf_inf_or_nan s a -> sf_inf_or_nan s (SF64add a y).
Proof.
  unfold sf_inf_or_nan, SF64add, SFadd. intros [-> | ->]; [|now right].
  destruct y as [sy|sy| |sy my ey]; auto. destruct s, sy; auto.
Qed.

Lemma SFadd_inf_or_nan_r s a y :
  sf_inf_or_nan s y -> sf_inf_or_nan s (SF64add a y).
Proof.
  unfold sf_inf_or_nan, SF64add, SFadd. intros [-> | ->].
  - destruct a as [sa|sa| |sa ma ea]; auto. destruct sa, s; auto.
  - destruct a; auto.
Qed.

Lemma SFsub_inf_or_nan s a b :
  sf_inf_or_nan s a -> sf_inf_or_nan s b -> SF64sub a b = S754_nan.
Proof.
  unfold sf_inf_or_nan, SF64sub, SFsub. intros [-> | ->] [-> | ->]; try reflexivity.
  destruct s; reflexivity.
Qed.

(** Once an infinity or NaN, a running sum never becomes finite again. *)
Lemma fold_add_inf_or_nan s (l : ndarray) : forall acc,
  sf_inf_or_nan s (Prim2SF acc) ->
  sf_inf_or_nan s (Prim2SF (fold_left PrimFloat.add l acc)).
Proof.
  induction l as [|y l IH]; intros acc Hacc; simpl; [exact Hacc|].
  apply IH. rewrite FloatAxioms.add_spec. now apply SFadd_inf_or_nan_l.
Qed.

Lemma fold_add_inf_elem s (l : ndarray) : forall acc j x,
  l !! j = Some x -> Prim2SF x = S754_infinity s ->
  sf_inf_or_nan s (Prim2SF (fold_left PrimFloat.add l acc)).
Proof.
  induction l as [|y l IH]; intros acc j x Hj Hx; [discriminate Hj|].
  destruct j as [|j]; simpl in *.
  - injection Hj as ->. apply fold_add_inf_or_nan.
    rewrite FloatAxioms.add_spec. apply SFadd_inf_or_nan_r. now left.
  - eapply IH; eassumption.
Qed.

Lemma prefix_sum_inf (prices : ndarray) (j k : nat) x s :
  prices !! j = Some x -> Prim2SF x = S754_infinity s -> (j < k)%nat ->
  sf_inf_or_nan s (Prim2SF (prefix_sum prices k)).
Proof.
  intros Hj Hx Hk. unfold prefix_sum.
  apply (fold_add_inf_elem s _ _ j x); [|exact Hx].
  now rewrite lookup_take_lt.
Qed.

(** X14. For a period [P >= 1], an infinite price at index [j] makes
    every output entry from index [j + P] on NaN: both running sums of
    line 19 are then infinite (or NaN), and the output never recovers,
    although the infinite price has left the window of [P] prices. *)
Theorem infinite_price_poisons_tail (prices : ndarray) (period : Z) (j i : nat) (x : float) :
  1 <= period ->
  prices !! j = Some x -> is_infinity x = true ->
  Z.of_nat j + period <= Z.of_nat i -> (i < length prices)%nat ->
  exists out, run_dpo prices period = Ok out /\ out !! i = Some nan.
Proof.
  intros Hp Hj Hx Hji Hi. exists (dpo_of prices period).
  split; [now apply run_dpo_pos|].
  destruct (shift_cutoff_bounds period Hp) as ([_ Hs2] & _).
  destruct (dpo_of_lookup prices period i Hp Hi) as [Hnan | ->]; [exact Hnan|].
  - destruct (unmasked_value prices period i Hp ltac:(lia) ltac:(lia) Hi)
      as (y & Hy & ->).
    destruct (is_infinity_Prim2SF x Hx) as [s Hs].
    f_equal. apply is_nan_eq, sub_nan_r, div_nan_l.
    rewrite is_nan_Prim2SF, FloatAxioms.sub_spec.
    rewrite (SFsub_inf_or_nan s); [reflexivity | |].
    + apply (prefix_sum_inf prices j (S i) x s Hj Hs). lia.
    + apply (prefix_sum_inf prices j (S i - Z.to_nat period) x s Hj Hs). lia.
Qed.

Lemma infinite_price_poisons_tail_witness :
  exists out,
    run_dpo [1; infinity; 3; 4; 5; 6; 7; 8]%float 2 = Ok out /\ out !! 7%nat = Some nan.
Proof.
  apply (infinite_price_poisons_tail [1; infinity; 3; 4; 5; 6; 7; 8]%float 2 1 7 infinity);
    [lia | reflexivity | reflexivity | lia | simpl; lia].
Defined.

(** ** Longer periods *)

Lemma cutoff_of_mono p q : p <= q -> cutoff_of p <= cutoff_of q.
Proof.
  intros Hpq. unfold cutoff_of, shift_of.
  pose proof (Z.div_le_mono p q 2 ltac:(lia) Hpq). lia.
Qed.

(** X15. A longer period never unmasks an entry, as long as its cutoff
    stays below 2^63: an output index that is below the cutoff for a
    period [P >= 1] is NaN in the output for every period [Q >= P] whose
    cutoff [Q - 1 + Q//2 + 1] is below 2^63. *)
Theorem longer_period_keeps_mask (prices : ndarray) (p q : Z) (i : nat) :
  1 <= p <= q -> cutoff_of q < 2 ^ 63 ->
  (i < length prices)%nat -> Z.of_nat i < cutoff_of p ->
  exists out, run_dpo prices q = Ok out /\ out !! i = Some nan.
Proof.
  intros [Hp Hpq] H63 Hi Hc. exists (dpo_of prices q).
  split; [apply run_dpo_pos; lia|].
  apply dpo_of_masked; [lia | exact H63 | exact Hi |].
  pose proof (cutoff_of_mono p q Hpq). lia.
Qed.

Lemma longer_period_keeps_mask_witness :
  exists out, run_dpo s10 7 = Ok out /\ out !! 6%nat = Some nan.
Proof.
  apply (longer_period_keeps_mask s10 5 7 6);
    [lia | vm_compute; reflexivity | simpl; lia | vm_compute; reflexivity].
Defined.
